(** * CircuitCanvas: coordinate transform, node resolution and interaction

    A shallow embedding of [src/components/CircuitCanvas.tsx].

    Conventions of the embedding.
    - A JavaScript [number] that carries a coordinate, a scale or a pixel
      size is a rational [Q]; arithmetic is exact, results are compared with
      [==].  Rounding of IEEE doubles and the infinities are outside the
      model (module [Binary64] replays one concrete computation in double
      precision); [NaN] arises only where a coordinate is read off a value
      that has none, and is kept as such in the calls that receive it.
    - The view rotation only ever holds integers, it is a [Z]; JavaScript's
      [%] is the truncating remainder [Z.rem].
    - An object used as a table is read the way JavaScript reads it: own
      properties first, then what it inherits from its prototype.  The node
      map [Record<string, Position>] is a [gmap string Position.t] of its
      own properties, with its prototype, once replaced, kept under the
      key ["__proto__"] (see [calculateNodePositions] and [readNode]).
    - The 2D drawing context is the list of the calls made on it, in order. *)

From Stdlib Require Import ZArith QArith Qminmax Qabs Qreals Reals Lia Lra Lqa List.
From Stdlib Require Import Ascii String Floats.SpecFloat.
From stdpp Require Import gmap strings.

Local Open Scope Q_scope.

(** ** Data model (the interfaces at the top of the component) *)

Module Position.
(** [interface Position { x; y; z }]; [drawDevice] also reads the optional
    property [position["scaleFactor"]]. *)
Record t : Type := mk {
  x : Q;
  y : Q;
  z : Q;
  scaleFactor : option Q
}.
End Position.

Module Device.
Record t : Type := mk {
  nodes : list string;
  deviceId : string;
  position : Position.t;
  rotation : Q;
  deviceType : string
}.
End Device.

Module Wire.
Record t : Type := mk {
  nodes : list string;
  wireId : string
}.
End Wire.

Module CircuitData.
Record t : Type := mk {
  devices : list Device.t;
  wires : list Wire.t
}.
End CircuitData.

(** A pair of pixel coordinates, [{ x, y }] in the source. *)
Module Point.
Record t : Type := mk { x : Q; y : Q }.

(** Equality of the two coordinates as rationals. *)
Definition eq (p q : t) : Prop := x p == x q /\ y p == y q.

(** Both coordinates negated. *)
Definition opp (p : t) : t := mk (- x p) (- y p).
End Point.

Module Size.
Record t : Type := mk { width : Q; height : Q }.
End Size.

(** ** Component state (the [useState] hooks) *)

Module View.
Record t : Type := mk {
  scale : Q;
  pan : Point.t;
  isDragging : bool;
  dragStart : Point.t;
  canvasSize : Size.t;
  rotation : Z;
  globalScaleFactor : Q
}.

Definition setScale (v : Q) (st : t) : t :=
  mk v (pan st) (isDragging st) (dragStart st) (canvasSize st)
     (rotation st) (globalScaleFactor st).
Definition setPan (v : Point.t) (st : t) : t :=
  mk (scale st) v (isDragging st) (dragStart st) (canvasSize st)
     (rotation st) (globalScaleFactor st).
Definition setIsDragging (v : bool) (st : t) : t :=
  mk (scale st) (pan st) v (dragStart st) (canvasSize st)
     (rotation st) (globalScaleFactor st).
Definition setDragStart (v : Point.t) (st : t) : t :=
  mk (scale st) (pan st) (isDragging st) v (canvasSize st)
     (rotation st) (globalScaleFactor st).
Definition setCanvasSize (v : Size.t) (st : t) : t :=
  mk (scale st) (pan st) (isDragging st) (dragStart st) v
     (rotation st) (globalScaleFactor st).
Definition setRotation (v : Z) (st : t) : t :=
  mk (scale st) (pan st) (isDragging st) (dragStart st) (canvasSize st)
     v (globalScaleFactor st).
Definition setGlobalScaleFactor (v : Q) (st : t) : t :=
  mk (scale st) (pan st) (isDragging st) (dragStart st) (canvasSize st)
     (rotation st) v.

(** The initial values of the hooks; [initialScaleFactor] is a prop. *)
Definition initial (initialScaleFactor : Q) : t :=
  mk 1 (Point.mk 0 0) false (Point.mk 0 0) (Size.mk 800 600) 0%Z
     initialScaleFactor.
End View.

(** ** Strings *)

(** [String.prototype.toLowerCase] on the ASCII letters; every other byte is
    kept.  On the comparison with ["junction"], the only use in the
    component that decides anything, this agrees with the Unicode mapping:
    no character outside [A-Z] lowercases to one of the letters of that
    word. *)
Definition lowerAscii (c : ascii) : ascii :=
  let n := nat_of_ascii c in
  if (Nat.leb 65 n && Nat.leb n 90)%bool then ascii_of_nat (n + 32) else c.

Fixpoint toLowerCase (s : string) : string :=
  match s with
  | EmptyString => EmptyString
  | String c rest => String (lowerAscii c) (toLowerCase rest)
  end.

(** [device.deviceType.toLowerCase() === "junction"]. *)
Definition isJunction (device : Device.t) : bool :=
  String.eqb (toLowerCase (Device.deviceType device)) "junction".

(** [Array.prototype.includes] on a list of node ids. *)
Definition includes (l : list string) (s : string) : bool :=
  existsb (String.eqb s) l.

(** ** Geometry *)

(** [device.position["scaleFactor"] || 1]: a missing property and the falsy
    number [0] both give [1]. *)
Definition localScaleFactor (p : Position.t) : Q :=
  match Position.scaleFactor p with
  | Some v => if Qeq_bool v 0 then 1 else v
  | None => 1
  end.

(** The [switch (rotation)] of [drawDevice], with the two assignments of
    each case as a point. *)
Definition deviceScreen (st : View.t) (baseScale : Q) (device : Device.t)
  : Point.t :=
  let scale := View.scale st in
  let pan := View.pan st in
  let scaleFactor := localScaleFactor (Device.position device) in
  let scaledX := Position.x (Device.position device) * View.globalScaleFactor st in
  let scaledZ := Position.z (Device.position device) * View.globalScaleFactor st in
  if (View.rotation st =? 0)%Z then
    Point.mk (scaledX * baseScale * scale * scaleFactor + Point.x pan)
             (scaledZ * baseScale * scale * scaleFactor + Point.y pan)
  else if (View.rotation st =? 90)%Z then
    Point.mk (- scaledZ * baseScale * scale * scaleFactor + Point.x pan)
             (scaledX * baseScale * scale * scaleFactor + Point.y pan)
  else if (View.rotation st =? 180)%Z then
    Point.mk (- scaledX * baseScale * scale * scaleFactor + Point.x pan)
             (- scaledZ * baseScale * scale * scaleFactor + Point.y pan)
  else if (View.rotation st =? 270)%Z then
    Point.mk (scaledZ * baseScale * scale * scaleFactor + Point.x pan)
             (- scaledX * baseScale * scale * scaleFactor + Point.y pan)
  else
    Point.mk (scaledX * baseScale * scale * scaleFactor + Point.x pan)
             (scaledZ * baseScale * scale * scaleFactor + Point.y pan).

(** The [switch (rotation)] of [drawWire], for one endpoint; the source
    writes the same four assignments for the start and for the end. *)
Definition wireScreen (st : View.t) (baseScale : Q) (pos : Position.t)
  : Point.t :=
  let scale := View.scale st in
  let pan := View.pan st in
  let scaledX := Position.x pos * View.globalScaleFactor st in
  let scaledZ := Position.z pos * View.globalScaleFactor st in
  if (View.rotation st =? 0)%Z then
    Point.mk (scaledX * baseScale * scale + Point.x pan)
             (scaledZ * baseScale * scale + Point.y pan)
  else if (View.rotation st =? 90)%Z then
    Point.mk (- scaledZ * baseScale * scale + Point.x pan)
             (scaledX * baseScale * scale + Point.y pan)
  else if (View.rotation st =? 180)%Z then
    Point.mk (- scaledX * baseScale * scale + Point.x pan)
             (- scaledZ * baseScale * scale + Point.y pan)
  else if (View.rotation st =? 270)%Z then
    Point.mk (scaledZ * baseScale * scale + Point.x pan)
             (- scaledX * baseScale * scale + Point.y pan)
  else
    Point.mk (scaledX * baseScale * scale + Point.x pan)
             (scaledZ * baseScale * scale + Point.y pan).


(** ** Node resolver *)

(** The names every plain object inherits from [Object.prototype]: eleven
    functions and the accessor [__proto__]. *)
Definition objectPrototypeKeys : list string :=
  [ "constructor"; "__defineGetter__"; "__defineSetter__"; "hasOwnProperty";
    "__lookupGetter__"; "__lookupSetter__"; "isPrototypeOf";
    "propertyIsEnumerable"; "toString"; "valueOf"; "__proto__";
    "toLocaleString" ]%string.

(** [calculateNodePositions]: the two nested [forEach], in array order; a
    later assignment to the same key overwrites an earlier one.  The map
    holds the own properties of the object [nodePositions]; the entry
    under ["__proto__"] is the object's prototype: the assignment
    [nodePositions["__proto__"] = position] runs the inherited setter,
    which makes the position the prototype instead of creating a property,
    and a later such assignment replaces it. *)
Definition calculateNodePositions (devices : list Device.t)
  : gmap string Position.t :=
  foldl (fun nodePositions device =>
           foldl (fun nodePositions nodeId =>
                    if isJunction device
                    then <[nodeId := Device.position device]> nodePositions
                    else nodePositions)
                 nodePositions (Device.nodes device))
        ∅ devices.

(** [devices.find((d) => d.nodes.includes(nodeId))].  The node id comes
    from destructuring [wire.nodes] and is [undefined] ([None]) when the
    array is too short; no [string[]] includes [undefined]. *)
Definition findDevice (devices : list Device.t) (nodeId : option string)
  : option Device.t :=
  match nodeId with
  | Some n => List.find (fun d => includes (Device.nodes d) n) devices
  | None => None
  end.

Module NodeRead.
(** What [nodePositions[key]] can evaluate to. *)
Inductive t : Type :=
| position (p : Position.t)
| number (v : Q)
| inheritedMember (name : string)
| undefined.
End NodeRead.

(** [position[key]] for the properties a position object has. *)
Definition positionField (p : Position.t) (key : string) : option Q :=
  if String.eqb key "x" then Some (Position.x p)
  else if String.eqb key "y" then Some (Position.y p)
  else if String.eqb key "z" then Some (Position.z p)
  else if String.eqb key "scaleFactor" then Position.scaleFactor p
  else None.

(** [nodePositions[key]]: an own property (for ["__proto__"], the
    prototype that an assignment has installed); else a property of that
    installed prototype, a position object, if there is one; else what
    [Object.prototype] provides under that name (a function, or for
    ["__proto__"] the prototype object itself); else [undefined]. *)
Definition readNode (nodePositions : gmap string Position.t) (key : string)
  : NodeRead.t :=
  match nodePositions !! key with
  | Some p => NodeRead.position p
  | None =>
      match nodePositions !! "__proto__"%string
            ≫= (fun proto => positionField proto key) with
      | Some v => NodeRead.number v
      | None =>
          if includes objectPrototypeKeys key
          then NodeRead.inheritedMember key
          else NodeRead.undefined
      end
  end.

Module Endpoint.
(** The value of [startPos] or [endPos]: a position object, or a value
    that has no [x] and no [z] (a function, the prototype object, a
    number), whose coordinates are [undefined] and make every screen
    coordinate [NaN]. *)
Inductive t : Type :=
| position (p : Position.t)
| noCoordinates.
End Endpoint.

(** [nodePositions[nodeId] || device.position]: the value read when it is
    truthy (every object and function, every number but [0]), the
    device's position otherwise.  An [undefined] node id would be read as
    the property name ["undefined"]; [drawWire] has returned before
    that. *)
Definition endpointPosition (nodePositions : gmap string Position.t)
    (nodeId : option string) (device : Device.t) : Endpoint.t :=
  let key := match nodeId with Some n => n | None => "undefined"%string end in
  match readNode nodePositions key with
  | NodeRead.position p => Endpoint.position p
  | NodeRead.number v =>
      if Qeq_bool v 0 then Endpoint.position (Device.position device)
      else Endpoint.noCoordinates
  | NodeRead.inheritedMember _ => Endpoint.noCoordinates
  | NodeRead.undefined => Endpoint.position (Device.position device)
  end.

(** The first lines of [drawWire], up to [startPos] and [endPos]; [None]
    is the early [return]. *)
Definition wireEndpoints (wire : Wire.t) (devices : list Device.t)
    (nodePositions : gmap string Position.t)
  : option (Endpoint.t * Endpoint.t) :=
  let startNodeId := Wire.nodes wire !! 0%nat in
  let endNodeId := Wire.nodes wire !! 1%nat in
  match findDevice devices startNodeId, findDevice devices endNodeId with
  | Some startDevice, Some endDevice =>
      Some (endpointPosition nodePositions startNodeId startDevice,
            endpointPosition nodePositions endNodeId endDevice)
  | _, _ => None
  end.

(** ** The drawing surface *)

Module Ctx.
(** The calls and property assignments the component makes on a
    [CanvasRenderingContext2D].  [font px] stands for the assignment of
    the template string [bold <px>px -apple-system, ...]; [moveToNaN] and
    [lineToNaN] for the calls with both arguments [NaN];
    [fillStyleUndefined] and [strokeStyleUndefined] for the assignment of
    [undefined]. *)
Inductive op : Type :=
| clearRect (x y w h : Q)
| fillStyle (c : string)
| fillRect (x y w h : Q)
| save
| restore
| translate (x y : Q)
| rotate (angle : Q)
| shadowColor (c : string)
| shadowBlur (v : Q)
| shadowOffsetY (v : Q)
| beginPath
| closePath
| moveTo (x y : Q)
| lineTo (x y : Q)
| moveToNaN
| lineToNaN
| arcTo (x1 y1 x2 y2 radius : Q)
| arc (x y radius startAngle endAngle : Q)
| fill
| stroke
| strokeStyle (c : string)
| fillStyleUndefined
| strokeStyleUndefined
| lineWidth (v : Q)
| font (px : Q)
| textAlign (a : string)
| textBaseline (b : string)
| fillText (text : string) (x y : Q).
End Ctx.

Module Canvas.
(** [canvas.width] and [canvas.height] are integers. *)
Record t : Type := mk { width : Z; height : Z }.
End Canvas.

Module TableRead.
(** What [table[key]] can evaluate to for an object literal [table]. *)
Inductive t (A : Type) : Type :=
| own (v : A)
| inheritedMember (name : string)
| undefined.
Arguments own {A} v.
Arguments inheritedMember {A} name.
Arguments undefined {A}.
End TableRead.

(** The property written under [key] in an object literal. *)
Fixpoint ownProperty {A : Type} (table : list (string * A)) (key : string)
  : option A :=
  match table with
  | [] => None
  | (k, v) :: rest => if String.eqb k key then Some v else ownProperty rest key
  end.

(** [table[key]]: the own property, else the member of [Object.prototype]
    of that name, else [undefined]. *)
Definition readTable {A : Type} (table : list (string * A)) (key : string)
  : TableRead.t A :=
  match ownProperty table key with
  | Some v => TableRead.own v
  | None =>
      if includes objectPrototypeKeys key
      then TableRead.inheritedMember key
      else TableRead.undefined
  end.

Definition deviceColors : list (string * (string * string)) :=
  [ ("resistor", ("#0a84ff", "#5ac8fa"));
    ("capacitor", ("#5ac8fa", "#0a84ff"));
    ("inductor", ("#cc7ef5", "#5ac8fa"));
    ("voltage_source", ("#ff9f0a", "#cc7ef5"));
    ("current_source", ("#ff9f0a", "#0a84ff"));
    ("ground", ("#8e8e93", "#ffffff"));
    ("junction", ("#d1d1d6", "#ffffff"));
    ("default", ("#ffffff", "#d1d1d6")) ]%string.

Definition componentEmojis : list (string * string) :=
  [ ("resistor", "⚡"); ("capacitor", "🔋"); ("inductor", "🌀");
    ("voltage_source", "⚡"); ("current_source", "↯"); ("ground", "⏚");
    ("junction", "◉"); ("default", "⚡") ]%string.

(** [for (let x = 0; x < limit; x += step)]: the values the loop variable
    takes.  Each turn adds [step >= 1], so [limit] turns of fuel never run
    out (lemma [forRange_fuel]). *)
Fixpoint forRangeFrom (fuel : nat) (x limit step : Z) : list Z :=
  match fuel with
  | O => []
  | S fuel' =>
      if (x <? limit)%Z then x :: forRangeFrom fuel' (x + step) limit step
      else []
  end.

Definition forRange (limit step : Z) : list Z :=
  forRangeFrom (Z.to_nat limit) 0 limit step.

Definition drawCheckerPattern (canvas : Canvas.t) : list Ctx.op :=
  let squareSize := 20%Z in
  let darkColor := "#1c1c1e"%string in
  let lightColor := "#2c2c2e"%string in
  flat_map (fun x =>
    flat_map (fun y =>
      [ Ctx.fillStyle
          (if (Z.rem ((x + y) / squareSize) 2 =? 0)%Z
           then lightColor else darkColor);
        Ctx.fillRect (inject_Z x) (inject_Z y)
                     (inject_Z squareSize) (inject_Z squareSize) ])
      (forRange (Canvas.height canvas) squareSize))
    (forRange (Canvas.width canvas) squareSize).

(** [drawWire]; the values [normStartX] ... [normEndZ] are computed and
    never read, they are left out. *)
Definition drawWire (st : View.t) (wire : Wire.t) (devices : list Device.t)
    (nodePositions : gmap string Position.t) (baseScale : Q)
  : list Ctx.op :=
  match wireEndpoints wire devices nodePositions with
  | None => []
  | Some (startPos, endPos) =>
      [ Ctx.beginPath;
        match startPos with
        | Endpoint.position p =>
            let screenStart := wireScreen st baseScale p in
            Ctx.moveTo (Point.x screenStart) (Point.y screenStart)
        | Endpoint.noCoordinates => Ctx.moveToNaN
        end;
        match endPos with
        | Endpoint.position p =>
            let screenEnd := wireScreen st baseScale p in
            Ctx.lineTo (Point.x screenEnd) (Point.y screenEnd)
        | Endpoint.noCoordinates => Ctx.lineToNaN
        end;
        Ctx.strokeStyle "#0a84ff";
        Ctx.lineWidth (2 * View.scale st);
        Ctx.stroke ]
  end.

Section Renderer.
(** Supplied by the JavaScript runtime: the constant [Math.PI], the
    width [ctx.measureText(text).width] of a text in the current font
    (given here by its pixel size), and the text a template literal gives
    for the member of [Object.prototype] of a given name (the source text
    of a built-in function is left to the engine). *)
Variable PI : Q.
Variable measureText : Q -> string -> Q.
Variable objectText : string -> string.

Definition drawDevice (st : View.t) (device : Device.t)
    (nodePositions : gmap string Position.t) (baseScale : Q)
  : list Ctx.op :=
  let scale := View.scale st in
  let screen := deviceScreen st baseScale device in
  let colors :=
    match readTable deviceColors (toLowerCase (Device.deviceType device)) with
    | TableRead.own c => Some c
    | TableRead.inheritedMember _ => None
    | TableRead.undefined => Some ("#ffffff", "#d1d1d6")%string
    end in
  let fillColor :=
    match colors with
    | Some c => Ctx.fillStyle (fst c)
    | None => Ctx.fillStyleUndefined
    end in
  let strokeColor :=
    match colors with
    | Some c => Ctx.strokeStyle (snd c)
    | None => Ctx.strokeStyleUndefined
    end in
  let size := (if isJunction device then 20 else 80) * scale in
  [ Ctx.save;
    Ctx.translate (Point.x screen) (Point.y screen);
    Ctx.rotate (Device.rotation device * PI / 180) ]
  ++ (if negb (isJunction device) then
        let boxWidth := size * 2.5 in
        let boxHeight := size * 1.2 in
        let radius := 12 * scale in
        let emoji :=
          match readTable componentEmojis
                          (toLowerCase (Device.deviceType device)) with
          | TableRead.own e => e
          | TableRead.inheritedMember name => objectText name
          | TableRead.undefined => "⚡"%string
          end in
        let text := (emoji ++ " " ++ Device.deviceType device)%string in
        let textWidth := measureText (18 * scale) text in
        let textHeight := 24 * scale in
        let padding := 8 * scale in
        [ Ctx.shadowColor "rgba(0, 0, 0, 0.2)";
          Ctx.shadowBlur (10 * scale);
          Ctx.shadowOffsetY (4 * scale);
          Ctx.beginPath;
          Ctx.moveTo (- boxWidth / 2 + radius) (- boxHeight / 2);
          Ctx.lineTo (boxWidth / 2 - radius) (- boxHeight / 2);
          Ctx.arcTo (boxWidth / 2) (- boxHeight / 2)
                    (boxWidth / 2) (- boxHeight / 2 + radius) radius;
          Ctx.lineTo (boxWidth / 2) (boxHeight / 2 - radius);
          Ctx.arcTo (boxWidth / 2) (boxHeight / 2)
                    (boxWidth / 2 - radius) (boxHeight / 2) radius;
          Ctx.lineTo (- boxWidth / 2 + radius) (boxHeight / 2);
          Ctx.arcTo (- boxWidth / 2) (boxHeight / 2)
                    (- boxWidth / 2) (boxHeight / 2 - radius) radius;
          Ctx.lineTo (- boxWidth / 2) (- boxHeight / 2 + radius);
          Ctx.arcTo (- boxWidth / 2) (- boxHeight / 2)
                    (- boxWidth / 2 + radius) (- boxHeight / 2) radius;
          Ctx.closePath;
          fillColor;
          Ctx.fill;
          Ctx.shadowColor "transparent";
          strokeColor;
          Ctx.lineWidth (3 * scale);
          Ctx.stroke;
          Ctx.rotate (- (Device.rotation device * PI) / 180);
          Ctx.font (18 * scale);
          Ctx.fillStyle "rgba(0, 0, 0, 0.5)";
          Ctx.fillRect (- textWidth / 2 - padding)
                       (- textHeight / 2 - padding / 2)
                       (textWidth + padding * 2)
                       (textHeight + padding);
          Ctx.fillStyle "#ffffff";
          Ctx.textAlign "center";
          Ctx.textBaseline "middle";
          Ctx.fillText text 0 0 ]
      else
        [ Ctx.beginPath;
          Ctx.arc 0 0 (size / 4) 0 (PI * 2);
          fillColor;
          Ctx.fill;
          strokeColor;
          Ctx.lineWidth (2 * scale);
          Ctx.stroke ])
  ++ [ Ctx.restore ].

(** [Math.min(canvas.width / 1000, canvas.height / 1000) * 0.9]. *)
Definition baseScaleOf (canvas : Canvas.t) : Q :=
  Qmin (inject_Z (Canvas.width canvas) / 1000)
       (inject_Z (Canvas.height canvas) / 1000) * 0.9.

(** [draw]: nothing without a canvas with a 2D context or without
    circuit data; otherwise the background, then every wire, then every
    device. *)
Definition draw (st : View.t) (canvas : option Canvas.t)
    (circuitData : option CircuitData.t) : list Ctx.op :=
  match canvas, circuitData with
  | Some canvas, Some circuitData =>
      let baseScale := baseScaleOf canvas in
      let nodePositions :=
        calculateNodePositions (CircuitData.devices circuitData) in
      [ Ctx.clearRect 0 0 (inject_Z (Canvas.width canvas))
                      (inject_Z (Canvas.height canvas)) ]
      ++ drawCheckerPattern canvas
      ++ flat_map (fun wire =>
                     drawWire st wire (CircuitData.devices circuitData)
                              nodePositions baseScale)
                  (CircuitData.wires circuitData)
      ++ flat_map (fun device =>
                     drawDevice st device nodePositions baseScale)
                  (CircuitData.devices circuitData)
  | _, _ => []
  end.
End Renderer.

(** ** Interaction *)

(** [handleWheel]: [e.deltaY > 0 ? -1 : 1], then the functional update of
    [scale]. *)
Definition handleWheel (deltaY : Q) (st : View.t) : View.t :=
  let zoomFactor := 0.05 in
  let direction := if Qle_bool deltaY 0 then 1 else -1 in
  View.setScale
    (Qmax 0.1 (Qmin 10 (View.scale st + direction * zoomFactor))) st.

(** [handleRotate]: [(prev + 90) % 360]. *)
Definition handleRotate (st : View.t) : View.t :=
  View.setRotation (Z.rem (View.rotation st + 90) 360) st.

Definition handleMouseDown (clientX clientY : Q) (st : View.t) : View.t :=
  View.setDragStart
    (Point.mk (clientX - Point.x (View.pan st))
              (clientY - Point.y (View.pan st)))
    (View.setIsDragging true st).

Definition handleMouseMove (clientX clientY : Q) (st : View.t) : View.t :=
  if View.isDragging st then
    View.setPan
      (Point.mk (clientX - Point.x (View.dragStart st))
                (clientY - Point.y (View.dragStart st))) st
  else st.

Definition handleMouseUp (st : View.t) : View.t :=
  View.setIsDragging false st.

(** [initializeCanvas], as far as the state goes: [setCanvasSize]. *)
Definition initializeCanvas (width height : Q) (st : View.t) : View.t :=
  View.setCanvasSize (Size.mk width height) st.

(** The [onValueChange] handler given to the slider:
    [([value]) => setGlobalScaleFactor(value)]. *)
Definition onValueChange (value : Q) (st : View.t) : View.t :=
  View.setGlobalScaleFactor value st.

Module Slider.
(** The props the component passes to [<Slider>]. *)
Definition min : Q := 1000.
Definition max : Q := 15000.

(** Modelled from the spec: the [Slider] control of
    [@/components/ui/slider], whose code is not among the sources.  The
    spec has scale-factor requests below the lower or above the upper
    bound clamp exactly to that bound, and a value inside the interval
    chosen as it is; [emit] is the value the control hands to its
    [onValueChange] for a requested value. *)
Definition emit (lo hi requested : Q) : Q :=
  if negb (Qle_bool lo requested) then lo
  else if negb (Qle_bool requested hi) then hi
  else requested.
End Slider.

(** The set-scale-factor operation: a request goes through the slider,
    whose emitted value reaches [onValueChange]. *)
Definition setScaleFactor (requested : Q) (st : View.t) : View.t :=
  onValueChange (Slider.emit Slider.min Slider.max requested) st.

(** Everything that can happen to the mounted component. *)
Inductive Action : Type :=
| Wheel (deltaY : Q)
| MouseDown (clientX clientY : Q)
| MouseMove (clientX clientY : Q)
| MouseUp
| MouseLeave
| ClickRotate
| SlideTo (requested : Q)
| Resize (width height : Q).

Definition step (st : View.t) (a : Action) : View.t :=
  match a with
  | Wheel deltaY => handleWheel deltaY st
  | MouseDown cx cy => handleMouseDown cx cy st
  | MouseMove cx cy => handleMouseMove cx cy st
  | MouseUp => handleMouseUp st
  | MouseLeave => handleMouseUp st
  | ClickRotate => handleRotate st
  | SlideTo v => setScaleFactor v st
  | Resize w h => initializeCanvas w h st
  end.

(** The state after a sequence of actions, oldest first. *)
Definition run (st : View.t) (actions : list Action) : View.t :=
  foldl step st actions.

(** ** The transform in the words of the specification *)

Module Spec.
(** [k = baseScale * zoomScale * localScaleFactor], applied to
    [scaledX = x * g] and [scaledZ = z * g] by quadrant. *)
Definition transform (x z : Q) (q : Z) (s : Q) (pan : Point.t)
    (b g f : Q) : Point.t :=
  let scaledX := x * g in
  let scaledZ := z * g in
  let k := b * s * f in
  if (q =? 0)%Z then
    Point.mk (scaledX * k + Point.x pan) (scaledZ * k + Point.y pan)
  else if (q =? 90)%Z then
    Point.mk (- scaledZ * k + Point.x pan) (scaledX * k + Point.y pan)
  else if (q =? 180)%Z then
    Point.mk (- scaledX * k + Point.x pan) (- scaledZ * k + Point.y pan)
  else
    Point.mk (scaledZ * k + Point.x pan) (- scaledX * k + Point.y pan).

(** "The device's [position.scaleFactor] (default 1)", read literally:
    the property when it is there, [1] when it is not. *)
Definition scaleFactorOrDefault (p : Position.t) : Q :=
  default 1 (Position.scaleFactor p).

(** The squared Euclidean distance between two screen points, and the
    distance itself as a real number. *)
Definition sqDistance (p o : Point.t) : Q :=
  (Point.x p - Point.x o) * (Point.x p - Point.x o)
  + (Point.y p - Point.y o) * (Point.y p - Point.y o).

Definition distance (p o : Point.t) : R :=
  sqrt (Q2R (sqDistance p o)).

(** The legal quadrants. *)
Definition quadrant (q : Z) : Prop :=
  q = 0%Z \/ q = 90%Z \/ q = 180%Z \/ q = 270%Z.

(** Some device of the list has [n] among its nodes. *)
Definition listed (devices : list Device.t) (n : string) : Prop :=
  exists d, d ∈ devices /\ n ∈ Device.nodes d.

(** Some junction of the list has [n] among its nodes. *)
Definition junctionListed (devices : list Device.t) (n : string) : Prop :=
  exists j, j ∈ devices /\ isJunction j = true /\ n ∈ Device.nodes j.

(** [d] is the first device of the array that has [n] among its nodes. *)
Definition firstListing (devices : list Device.t) (n : string)
    (d : Device.t) : Prop :=
  exists before after,
    devices = before ++ d :: after
    /\ (forall d', d' ∈ before -> n ∉ Device.nodes d')
    /\ n ∈ Device.nodes d.

(** Lowercasing sends the character [c] to [d]: a capital ASCII letter
    goes to the letter 32 codes further, any other character stays. *)
Definition lowercasesTo (c d : ascii) : Prop :=
  ((65 <= nat_of_ascii c <= 90)%nat
   /\ ((nat_of_ascii c + 32)%nat = nat_of_ascii d))
  \/ (~ (65 <= nat_of_ascii c <= 90)%nat /\ c = d).

(** The string [s], lowercased, is [t]: character by character. *)
Fixpoint lowercasedIs (s t : string) : Prop :=
  match s, t with
  | EmptyString, EmptyString => True
  | String c s', String d t' => lowercasesTo c d /\ lowercasedIs s' t'
  | _, _ => False
  end.

(** The device's type, lowercased, equals ["junction"]. *)
Definition junctionType (d : Device.t) : Prop :=
  lowercasedIs (Device.deviceType d) "junction".

(** Some device of the list whose type, lowercased, equals ["junction"]
    has [n] among its nodes. *)
Definition junctionLists (devices : list Device.t) (n : string) : Prop :=
  exists j, j ∈ devices /\ junctionType j /\ n ∈ Device.nodes j.

(** The property names of a position object. *)
Definition positionKeys : list string :=
  [ "x"; "y"; "z"; "scaleFactor" ]%string.

(** A node id for which an object used as the node map answers nothing of
    its own accord: no name inherited from [Object.prototype], and, when a
    junction lists ["__proto__"] (and so makes its position the map's
    prototype), no property name of a position. *)
Definition plainKey (devices : list Device.t) (n : string) : Prop :=
  (n ∉ objectPrototypeKeys)
  /\ (junctionLists devices "__proto__" -> n ∉ positionKeys).

(** The precedence rule for the value [e] used for node id [n]: a
    junction's position when a junction lists [n]; otherwise, when some
    device lists [n] and [n] is a plain key, the position of the first
    such device. *)
Definition resolvesTo (devices : list Device.t) (n : string)
    (e : Endpoint.t) : Prop :=
  (junctionLists devices n ->
   exists j, j ∈ devices /\ junctionType j /\ n ∈ Device.nodes j
             /\ e = Endpoint.position (Device.position j))
  /\ (~ junctionLists devices n -> listed devices n -> plainKey devices n ->
      exists d, firstListing devices n d
                /\ e = Endpoint.position (Device.position d)).

(** One of the two endpoint node ids of the wire is listed by no
    device. *)
Definition dangling (wire : Wire.t) (devices : list Device.t) : Prop :=
  exists n,
    (Wire.nodes wire !! 0%nat = Some n \/ Wire.nodes wire !! 1%nat = Some n)
    /\ ~ listed devices n.
End Spec.

(** ** The scenario of the specification's example *)

Module Scenario.
Definition R1 : Device.t :=
  Device.mk ["n1"; "n2"]%string "R1" (Position.mk 1 0 0 None) 0 "resistor".
Definition J1 : Device.t :=
  Device.mk ["n1"]%string "J1" (Position.mk 1 0 0 None) 0 "junction".
Definition W1 : Wire.t := Wire.mk ["n1"; "n2"]%string "W1".
Definition devices : list Device.t := [R1; J1].

(** quadrant 0, zoom 1, pan (0, 0), globalScaleFactor 1000. *)
Definition view : View.t := View.initial 1000.
Definition baseScale : Q := 0.9.
End Scenario.

(** ** A circuit whose node id is a name every object inherits *)

Module Inherited.
Definition R9 : Device.t :=
  Device.mk ["constructor"]%string "R9" (Position.mk 1 0 0 None) 0 "resistor".
Definition W9 : Wire.t := Wire.mk ["constructor"; "constructor"]%string "W9".
Definition devices : list Device.t := [R9].
End Inherited.

(** ** The example's start abscissa in double precision *)

Module Binary64.
(** IEEE 754 binary64, the format of a JavaScript [number]: 53 bits of
    precision, exponents below 1024, round to nearest even. *)
Definition prec : Z := 53.
Definition emax : Z := 1024.
Definition mul : spec_float -> spec_float -> spec_float := SFmul prec emax.
Definition add : spec_float -> spec_float -> spec_float := SFadd prec emax.

(** The double that an integer literal denotes. *)
Definition ofZ (n : Z) : spec_float := binary_normalize prec emax n 0 false.

(** The double nearest to [0.9], [0x3FECCCCCCCCCCCCD]. *)
Definition nine_tenths : spec_float :=
  S754_finite false 8106479329266893 (-53).

(** [startScaledX * baseScale * scale + pan.x] of [drawWire], case [0],
    with [startScaledX = startPos.x * globalScaleFactor]. *)
Definition screenStartX (x globalScaleFactor baseScale scale panX : spec_float)
  : spec_float :=
  add (mul (mul (mul x globalScaleFactor) baseScale) scale) panX.
End Binary64.

(** ** Vocabulary for the properties of gestures and frames *)

(** A screen point moved by [(dx, dy)]. *)
Definition translate (p : Point.t) (dx dy : Q) : Point.t :=
  Point.mk (Point.x p + dx) (Point.y p + dy).

(** The pointer positions of a drag, as the [mousemove] events they raise. *)
Definition mouseMoves (positions : list (Q * Q)) : list Action :=
  map (fun m => MouseMove (fst m) (snd m)) positions.

(** The depth of the context's state stack after a list of calls, starting
    from depth [d]: [save] pushes, [restore] pops; [None] when a [restore]
    finds nothing to pop. *)
Fixpoint stackDepth (ops : list Ctx.op) (d : nat) : option nat :=
  match ops with
  | [] => Some d
  | Ctx.save :: rest => stackDepth rest (S d)
  | Ctx.restore :: rest =>
      match d with
      | O => None
      | S d' => stackDepth rest d'
      end
  | _ :: rest => stackDepth rest d
  end.

(** * Properties *)

(** ** Basic facts about the state and the helpers *)

Lemma quadrant_cases (q : Z) :
  Spec.quadrant q ->
  ((q =? 0)%Z = true) \/
  ((q =? 0)%Z = false /\ (q =? 90)%Z = true) \/
  ((q =? 0)%Z = false /\ (q =? 90)%Z = false /\ (q =? 180)%Z = true) \/
  ((q =? 0)%Z = false /\ (q =? 90)%Z = false /\ (q =? 180)%Z = false
   /\ (q =? 270)%Z = true).
Proof.
  intros [-> | [-> | [-> | ->]]]; cbn; tauto.
Qed.

Lemma not_quadrant_cases (q : Z) :
  ~ Spec.quadrant q ->
  (q =? 0)%Z = false /\ (q =? 90)%Z = false /\ (q =? 180)%Z = false
  /\ (q =? 270)%Z = false.
Proof.
  unfold Spec.quadrant. intros H.
  repeat split; apply Z.eqb_neq; intros ->; apply H; tauto.
Qed.

Lemma localScaleFactor_nonzero (p : Position.t) : ~ localScaleFactor p == 0.
Proof.
  unfold localScaleFactor.
  destruct (Position.scaleFactor p) as [v|]; [|discriminate].
  destruct (Qeq_bool v 0) eqn:E; [discriminate|].
  now apply Qeq_bool_neq.
Qed.

(** [includes] decides membership. *)
Lemma includes_true (l : list string) (s : string) :
  includes l s = true <-> s ∈ l.
Proof.
  unfold includes. rewrite existsb_exists, list_elem_of_In. split.
  - intros (y & Hy & E). apply String.eqb_eq in E. now subst.
  - intros H. exists s. split; [assumption | apply String.eqb_refl].
Qed.

Lemma includes_false (l : list string) (s : string) :
  includes l s = false <-> s ∉ l.
Proof.
  rewrite <- includes_true. destruct (includes l s); split; congruence.
Qed.

(** ** The transform *)

Lemma deviceScreen_spec (st : View.t) (b : Q) (device : Device.t) :
  Spec.quadrant (View.rotation st) ->
  Point.eq (deviceScreen st b device)
    (Spec.transform (Position.x (Device.position device))
                    (Position.z (Device.position device))
                    (View.rotation st) (View.scale st) (View.pan st) b
                    (View.globalScaleFactor st)
                    (localScaleFactor (Device.position device))).
Proof.
  intros Hq. unfold deviceScreen, Spec.transform, Point.eq.
  destruct (quadrant_cases _ Hq) as [E0 | [[E0 E1] | [(E0 & E1 & E2) | (E0 & E1 & E2 & E3)]]];
    rewrite ?E0, ?E1, ?E2, ?E3; cbn [Point.x Point.y]; split; ring.
Qed.

Lemma wireScreen_spec (st : View.t) (b : Q) (pos : Position.t) :
  Spec.quadrant (View.rotation st) ->
  Point.eq (wireScreen st b pos)
    (Spec.transform (Position.x pos) (Position.z pos)
                    (View.rotation st) (View.scale st) (View.pan st) b
                    (View.globalScaleFactor st) 1).
Proof.
  intros Hq. unfold wireScreen, Spec.transform, Point.eq.
  destruct (quadrant_cases _ Hq) as [E0 | [[E0 E1] | [(E0 & E1 & E2) | (E0 & E1 & E2 & E3)]]];
    rewrite ?E0, ?E1, ?E2, ?E3; cbn [Point.x Point.y]; split; ring.
Qed.

(** [drawDevice] moves the origin to the point [deviceScreen] computes,
    right after saving the context. *)
Lemma drawDevice_translate (PI : Q) (measureText : Q -> string -> Q)
    (objectText : string -> string)
    (st : View.t) (device : Device.t)
    (nodePositions : gmap string Position.t) (b : Q) :
  exists rest,
    drawDevice PI measureText objectText st device nodePositions b
    = Ctx.save
        :: Ctx.translate (Point.x (deviceScreen st b device))
                         (Point.y (deviceScreen st b device))
        :: rest.
Proof. unfold drawDevice. cbn [app]. eexists. reflexivity. Qed.

(** A wire whose two ends are positions is drawn as one segment between
    the two points [wireScreen] computes for them. *)
Lemma drawWire_segment (st : View.t) (wire : Wire.t)
    (devices : list Device.t) (nodePositions : gmap string Position.t)
    (b : Q) (startPos endPos : Position.t) :
  wireEndpoints wire devices nodePositions
  = Some (Endpoint.position startPos, Endpoint.position endPos) ->
  drawWire st wire devices nodePositions b
  = [ Ctx.beginPath;
      Ctx.moveTo (Point.x (wireScreen st b startPos))
                 (Point.y (wireScreen st b startPos));
      Ctx.lineTo (Point.x (wireScreen st b endPos))
                 (Point.y (wireScreen st b endPos));
      Ctx.strokeStyle "#0a84ff";
      Ctx.lineWidth (2 * View.scale st);
      Ctx.stroke ].
Proof. intros H. unfold drawWire. now rewrite H. Qed.

(** C1, as stated, fails for a device whose position carries
    [scaleFactor: 0]: the claim's local factor is then [0] and the screen
    point would be the pan offset, while [0 || 1] makes the code use [1]
    and place the device at [(900, 0)]. *)
Lemma C1_scaleFactor_zero_counterexample :
  ~ Point.eq
      (deviceScreen Scenario.view Scenario.baseScale
         (Device.mk [] "R1" (Position.mk 1 0 0 (Some 0)) 0 "resistor"))
      (Spec.transform 1 0 0 1 (Point.mk 0 0) Scenario.baseScale 1000
         (Spec.scaleFactorOrDefault (Position.mk 1 0 0 (Some 0)))).
Proof.
  unfold Point.eq. cbn. intros [H _]. revert H. vm_compute. discriminate.
Qed.

(** C1 (amended): in each of the four quadrants the device transform and
    the wire-endpoint transform return the point of the specification's
    formula, with [scaledX = x*g], [scaledZ = z*g] and [k = b*s*f]; [f] is
    [1] for a wire endpoint, and for a device it is [position.scaleFactor]
    when that property is present and not zero, and [1] otherwise. *)
Theorem C1_transform_formula :
  forall (st : View.t) (b : Q) (device : Device.t) (pos : Position.t),
    Spec.quadrant (View.rotation st) ->
    Point.eq (deviceScreen st b device)
      (Spec.transform (Position.x (Device.position device))
                      (Position.z (Device.position device))
                      (View.rotation st) (View.scale st) (View.pan st) b
                      (View.globalScaleFactor st)
                      (localScaleFactor (Device.position device)))
    /\ Point.eq (wireScreen st b pos)
         (Spec.transform (Position.x pos) (Position.z pos)
                         (View.rotation st) (View.scale st) (View.pan st) b
                         (View.globalScaleFactor st) 1)
    /\ (Position.scaleFactor (Device.position device) = None ->
        localScaleFactor (Device.position device) = 1)
    /\ (forall v, Position.scaleFactor (Device.position device) = Some v ->
                  ~ v == 0 ->
                  localScaleFactor (Device.position device) = v)
    /\ (forall v, Position.scaleFactor (Device.position device) = Some v ->
                  v == 0 ->
                  localScaleFactor (Device.position device) = 1).
Proof.
  intros st b device pos Hq.
  split; [now apply deviceScreen_spec|].
  split; [now apply wireScreen_spec|].
  unfold localScaleFactor. repeat split.
  - now intros ->.
  - intros v -> Hv. destruct (Qeq_bool v 0) eqn:E; [|reflexivity].
    now apply Qeq_bool_iff in E.
  - intros v -> Hv. apply Qeq_bool_iff in Hv. now rewrite Hv.
Qed.

Lemma C1_transform_formula_witness :
  Point.eq
    (deviceScreen (View.setRotation 90 Scenario.view) Scenario.baseScale
                  Scenario.R1)
    (Point.mk 0 900)
  /\ Point.eq
       (wireScreen (View.setRotation 90 Scenario.view) Scenario.baseScale
                   (Position.mk 1 0 0 None))
       (Point.mk 0 900).
Proof.
  pose proof (C1_transform_formula (View.setRotation 90 Scenario.view)
                Scenario.baseScale Scenario.R1 (Position.mk 1 0 0 None)) as H.
  destruct H as (Hd & Hw & _).
  - unfold Spec.quadrant. cbn. tauto.
  - split.
    + destruct Hd as [Hx Hy]. split; [rewrite Hx | rewrite Hy]; reflexivity.
    + destruct Hw as [Hx Hy]. split; [rewrite Hx | rewrite Hy]; reflexivity.
Defined.

(** C4: with the pan at the origin, the screen point at quadrant [q] is
    the componentwise negative of the screen point at quadrant
    [(q + 180) mod 360], for devices and for wire endpoints. *)
Theorem C4_opposite_quadrants_negate :
  forall (st : View.t) (b : Q) (device : Device.t) (pos : Position.t)
         (q : Z),
    Spec.quadrant q ->
    Point.eq
      (deviceScreen (View.setRotation q (View.setPan (Point.mk 0 0) st))
                    b device)
      (Point.opp
         (deviceScreen
            (View.setRotation ((q + 180) mod 360)
                              (View.setPan (Point.mk 0 0) st))
            b device))
    /\ Point.eq
         (wireScreen (View.setRotation q (View.setPan (Point.mk 0 0) st))
                     b pos)
         (Point.opp
            (wireScreen
               (View.setRotation ((q + 180) mod 360)
                                 (View.setPan (Point.mk 0 0) st))
               b pos)).
Proof.
  intros st b device pos q [-> | [-> | [-> | ->]]];
    [ change ((0 + 180) mod 360)%Z with 180%Z
    | change ((90 + 180) mod 360)%Z with 270%Z
    | change ((180 + 180) mod 360)%Z with 0%Z
    | change ((270 + 180) mod 360)%Z with 90%Z ];
    unfold deviceScreen, wireScreen, Point.eq, Point.opp;
    cbn [View.rotation View.scale View.pan View.globalScaleFactor
         View.setRotation View.setPan Point.x Point.y Z.eqb Pos.eqb];
    repeat split; ring.
Qed.

Lemma C4_opposite_quadrants_negate_witness :
  Point.eq
    (deviceScreen (View.setRotation 90 (View.setPan (Point.mk 0 0) Scenario.view))
                  Scenario.baseScale Scenario.R1)
    (Point.opp
       (deviceScreen (View.setRotation 270 (View.setPan (Point.mk 0 0) Scenario.view))
                     Scenario.baseScale Scenario.R1)).
Proof.
  apply (C4_opposite_quadrants_negate Scenario.view Scenario.baseScale
           Scenario.R1 (Position.mk 1 0 0 None) 90).
  unfold Spec.quadrant. tauto.
Defined.

(** C10: for a rotation outside [{0, 90, 180, 270}] both transforms are
    defined and return what rotation [0] returns, and so the wire and the
    device are drawn exactly as at rotation [0]. *)
Theorem C10_other_rotation_as_zero :
  forall (PI : Q) (measureText : Q -> string -> Q)
         (objectText : string -> string) (st : View.t) (b : Q)
         (device : Device.t) (pos : Position.t) (wire : Wire.t)
         (devices : list Device.t) (nodePositions : gmap string Position.t),
    ~ Spec.quadrant (View.rotation st) ->
    deviceScreen st b device = deviceScreen (View.setRotation 0 st) b device
    /\ wireScreen st b pos = wireScreen (View.setRotation 0 st) b pos
    /\ drawDevice PI measureText objectText st device nodePositions b
       = drawDevice PI measureText objectText (View.setRotation 0 st) device
                    nodePositions b
    /\ drawWire st wire devices nodePositions b
       = drawWire (View.setRotation 0 st) wire devices nodePositions b.
Proof.
  intros PI measureText objectText st b device pos wire devices nodePositions Hq.
  destruct (not_quadrant_cases _ Hq) as (E0 & E1 & E2 & E3).
  assert (Hd : forall d, deviceScreen st b d
                         = deviceScreen (View.setRotation 0 st) b d).
  { intros d. unfold deviceScreen. rewrite E0, E1, E2, E3. reflexivity. }
  assert (Hw : forall p, wireScreen st b p
                         = wireScreen (View.setRotation 0 st) b p).
  { intros p. unfold wireScreen. rewrite E0, E1, E2, E3. reflexivity. }
  repeat split.
  - apply Hd.
  - apply Hw.
  - unfold drawDevice. rewrite Hd. reflexivity.
  - unfold drawWire.
    destruct (wireEndpoints wire devices nodePositions) as [[sp ep]|];
      [|reflexivity].
    destruct sp, ep; rewrite ?Hw; reflexivity.
Qed.

Lemma C10_other_rotation_as_zero_witness :
  deviceScreen (View.setRotation 45 Scenario.view) Scenario.baseScale
               Scenario.R1
  = deviceScreen (View.setRotation 0 (View.setRotation 45 Scenario.view))
                 Scenario.baseScale Scenario.R1.
Proof.
  apply (C10_other_rotation_as_zero 3 (fun _ _ => 0) (fun name => name)
           (View.setRotation 45 Scenario.view) Scenario.baseScale
           Scenario.R1 (Position.mk 1 0 0 None) Scenario.W1
           Scenario.devices ∅).
  unfold Spec.quadrant. cbn. intros [H | [H | [H | H]]]; discriminate H.
Defined.

(** ** Interaction *)

Lemma Qle_bool_false (a b : Q) : Qle_bool a b = false <-> b < a.
Proof.
  split.
  - intros E. apply Qnot_le_lt. intros H. apply Qle_bool_iff in H. congruence.
  - intros H. destruct (Qle_bool a b) eqn:E; [|reflexivity].
    apply Qle_bool_iff in E. exfalso. exact (Qlt_not_le _ _ H E).
Qed.

(** What the clamp [Math.max(lo, Math.min(hi, v))] returns, case by case. *)
Lemma clamp_low (lo hi v : Q) : lo <= hi -> v <= lo -> Qmax lo (Qmin hi v) = lo.
Proof.
  intros Hlh Hv. unfold Qmax, Qmin, GenericMinMax.gmax, GenericMinMax.gmin.
  destruct (hi ?= v) eqn:E1.
  - apply Qeq_alt in E1. assert (E : (lo ?= hi) = Eq) by (apply Qeq_alt; lra).
    now rewrite E.
  - apply Qlt_alt in E1. lra.
  - destruct (lo ?= v) eqn:E2; try reflexivity.
    apply Qlt_alt in E2. lra.
Qed.

Lemma clamp_high (lo hi v : Q) : lo < hi -> hi <= v -> Qmax lo (Qmin hi v) = hi.
Proof.
  intros Hlh Hv. unfold Qmax, Qmin, GenericMinMax.gmax, GenericMinMax.gmin.
  assert (E : (lo ?= hi) = Lt) by now apply Qlt_alt.
  destruct (hi ?= v) eqn:E1.
  - now rewrite E.
  - now rewrite E.
  - apply Qgt_alt in E1. lra.
Qed.

Lemma clamp_inside (lo hi v : Q) :
  lo < v -> v < hi -> Qmax lo (Qmin hi v) = v.
Proof.
  intros H1 H2. unfold Qmax, Qmin, GenericMinMax.gmax, GenericMinMax.gmin.
  assert (E : (hi ?= v) = Gt) by now apply Qgt_alt.
  rewrite E.
  assert (E' : (lo ?= v) = Lt) by now apply Qlt_alt.
  now rewrite E'.
Qed.

Lemma clamp_bounds (lo hi v : Q) :
  lo <= hi -> lo <= Qmax lo (Qmin hi v) <= hi.
Proof.
  intros H. split.
  - apply Q.le_max_l.
  - apply Q.max_lub; [assumption | apply Q.le_min_l].
Qed.

(** No handler but [handleRotate] writes [rotation]. *)
Lemma step_rotation (st : View.t) (a : Action) :
  a <> ClickRotate -> View.rotation (step st a) = View.rotation st.
Proof.
  destruct a; cbn; try reflexivity; try congruence.
  intros _. unfold handleMouseMove. now destruct (View.isDragging st).
Qed.

Lemma handleRotate_quadrant (st : View.t) :
  Spec.quadrant (View.rotation st) ->
  Spec.quadrant (View.rotation (handleRotate st)).
Proof.
  unfold Spec.quadrant, handleRotate. cbn [View.rotation View.setRotation].
  intros [-> | [-> | [-> | ->]]]; cbn; tauto.
Qed.

Lemma step_quadrant (st : View.t) (a : Action) :
  Spec.quadrant (View.rotation st) ->
  Spec.quadrant (View.rotation (step st a)).
Proof.
  intros H. destruct (a) eqn:E;
    try (rewrite step_rotation; [assumption | discriminate]).
  now apply handleRotate_quadrant.
Qed.

Lemma run_quadrant (actions : list Action) (st : View.t) :
  Spec.quadrant (View.rotation st) ->
  Spec.quadrant (View.rotation (run st actions)).
Proof.
  revert st. induction actions as [|a actions IH]; intros st H; [exact H|].
  cbn. apply IH. now apply step_quadrant.
Qed.

(** C2: the set-scale-factor operation stores the requested value clamped
    to [[1000, 15000]]: exactly [1000] for a request below, exactly [15000]
    for a request above, the request itself inside; the stored value is
    always in the interval. *)
Theorem C2_scale_factor_clamped :
  forall (v : Q) (st : View.t),
    (v < 1000 ->
     View.globalScaleFactor (setScaleFactor v st) = 1000)
    /\ (15000 < v ->
        View.globalScaleFactor (setScaleFactor v st) = 15000)
    /\ (1000 <= v <= 15000 ->
        View.globalScaleFactor (setScaleFactor v st) = v)
    /\ 1000 <= View.globalScaleFactor (setScaleFactor v st) <= 15000.
Proof.
  intros v st. unfold setScaleFactor, onValueChange, Slider.emit.
  cbn [View.globalScaleFactor View.setGlobalScaleFactor].
  unfold Slider.min, Slider.max.
  destruct (Qle_bool 1000 v) eqn:E1; cbn [negb].
  - apply Qle_bool_iff in E1.
    destruct (Qle_bool v 15000) eqn:E2; cbn [negb].
    + apply Qle_bool_iff in E2. repeat split; try lra; reflexivity.
    + apply Qle_bool_false in E2. repeat split; try lra; reflexivity.
  - apply Qle_bool_false in E1. repeat split; try lra; reflexivity.
Qed.

(** C3: with [d = -1] for a positive wheel delta and [d = 1] otherwise,
    the wheel handler sets [zoomScale] to [max(0.1, min(10, s + d * 0.05))];
    the result is in [[0.1, 10]], it is exactly the bound when the request
    reaches or crosses one, and the request itself in between. *)
Theorem C3_wheel_zoom_clamped :
  forall (deltaY : Q) (st : View.t) (d : Q),
    (0 < deltaY -> d = -1) ->
    (deltaY <= 0 -> d = 1) ->
    View.scale (handleWheel deltaY st)
    = Qmax 0.1 (Qmin 10 (View.scale st + d * 0.05))
    /\ 0.1 <= View.scale (handleWheel deltaY st) <= 10
    /\ (View.scale st + d * 0.05 <= 0.1 ->
        View.scale (handleWheel deltaY st) = 0.1)
    /\ (10 <= View.scale st + d * 0.05 ->
        View.scale (handleWheel deltaY st) = 10)
    /\ (0.1 < View.scale st + d * 0.05 < 10 ->
        View.scale (handleWheel deltaY st) = View.scale st + d * 0.05).
Proof.
  intros deltaY st d Hpos Hneg.
  assert (H : View.scale (handleWheel deltaY st)
              = Qmax 0.1 (Qmin 10 (View.scale st + d * 0.05))).
  { unfold handleWheel. cbn [View.scale View.setScale].
    destruct (Qle_bool deltaY 0) eqn:E.
    - apply Qle_bool_iff in E. now rewrite (Hneg E).
    - apply Qle_bool_false in E. now rewrite (Hpos E). }
  rewrite H. split; [reflexivity|].
  split; [apply clamp_bounds; discriminate|].
  split; [intros Hlow; apply clamp_low; [discriminate | assumption]|].
  split; [intros Hhigh; apply clamp_high; [reflexivity | assumption]|].
  intros [H1 H2]. now apply clamp_inside.
Qed.

Lemma C3_wheel_zoom_clamped_witness :
  View.scale (handleWheel 3 (View.initial 8000))
  = Qmax 0.1 (Qmin 10 (1 + -1 * 0.05))
  /\ View.scale (handleWheel (-3) (View.setScale 10 (View.initial 8000)))
     = 10.
Proof.
  split.
  - refine (proj1 (C3_wheel_zoom_clamped 3 (View.initial 8000) (-1) _ _)).
    + reflexivity.
    + intros H. exfalso. revert H. vm_compute. intros H. now apply H.
  - refine (proj1 (proj2 (proj2 (proj2
      (C3_wheel_zoom_clamped (-3) (View.setScale 10 (View.initial 8000)) 1
         _ _)))) _).
    + intros H. exfalso. revert H. vm_compute. discriminate.
    + reflexivity.
    + vm_compute. discriminate.
Defined.

(** C8: rotate maps [r] to [(r + 90) % 360], so 0 -> 90 -> 180 -> 270 -> 0;
    no other action changes the rotation; and from the initial value [0]
    the rotation is in [{0, 90, 180, 270}] after every sequence of
    actions. *)
Theorem C8_rotate_cycles_quadrants :
  (forall st : View.t,
     View.rotation (handleRotate st) = Z.rem (View.rotation st + 90) 360)
  /\ (forall st : View.t,
        Spec.quadrant (View.rotation st) ->
        View.rotation (handleRotate st)
        = ((View.rotation st + 90) mod 360)%Z)
  /\ (forall st : View.t,
        (View.rotation st = 0 -> View.rotation (handleRotate st) = 90)
        /\ (View.rotation st = 90 -> View.rotation (handleRotate st) = 180)
        /\ (View.rotation st = 180 -> View.rotation (handleRotate st) = 270)
        /\ (View.rotation st = 270 -> View.rotation (handleRotate st) = 0))%Z
  /\ (forall (st : View.t) (a : Action),
        a <> ClickRotate -> View.rotation (step st a) = View.rotation st)
  /\ (forall (initialScaleFactor : Q) (actions : list Action),
        Spec.quadrant
          (View.rotation (run (View.initial initialScaleFactor) actions))).
Proof.
  split; [reflexivity|].
  split.
  { intros st H. unfold handleRotate. cbn [View.rotation View.setRotation].
    destruct H as [-> | [-> | [-> | ->]]]; reflexivity. }
  split.
  { intros st. unfold handleRotate. cbn [View.rotation View.setRotation].
    repeat split; intros ->; reflexivity. }
  split; [apply step_rotation|].
  intros g actions. apply run_quadrant. left. reflexivity.
Qed.

(** ** Zoom and the distance from the pan origin *)

(** In every branch of the two switches the squared offset from the pan
    origin is the squared world offset times the square of all the
    factors. *)
Lemma deviceScreen_sqDistance (st : View.t) (b : Q) (device : Device.t) :
  Spec.sqDistance (deviceScreen st b device) (View.pan st)
  == (Position.x (Device.position device) * Position.x (Device.position device)
      + Position.z (Device.position device) * Position.z (Device.position device))
     * ((View.globalScaleFactor st * b
         * localScaleFactor (Device.position device))
        * (View.globalScaleFactor st * b
           * localScaleFactor (Device.position device)))
     * (View.scale st * View.scale st).
Proof.
  unfold deviceScreen, Spec.sqDistance.
  destruct (View.rotation st =? 0)%Z; [cbn [Point.x Point.y]; ring|].
  destruct (View.rotation st =? 90)%Z; [cbn [Point.x Point.y]; ring|].
  destruct (View.rotation st =? 180)%Z; [cbn [Point.x Point.y]; ring|].
  destruct (View.rotation st =? 270)%Z; cbn [Point.x Point.y]; ring.
Qed.

Lemma wireScreen_sqDistance (st : View.t) (b : Q) (pos : Position.t) :
  Spec.sqDistance (wireScreen st b pos) (View.pan st)
  == (Position.x pos * Position.x pos + Position.z pos * Position.z pos)
     * ((View.globalScaleFactor st * b) * (View.globalScaleFactor st * b))
     * (View.scale st * View.scale st).
Proof.
  unfold wireScreen, Spec.sqDistance.
  destruct (View.rotation st =? 0)%Z; [cbn [Point.x Point.y]; ring|].
  destruct (View.rotation st =? 90)%Z; [cbn [Point.x Point.y]; ring|].
  destruct (View.rotation st =? 180)%Z; [cbn [Point.x Point.y]; ring|].
  destruct (View.rotation st =? 270)%Z; cbn [Point.x Point.y]; ring.
Qed.

Lemma square_pos (a : Q) : ~ a == 0 -> 0 < a * a.
Proof.
  intros Ha. destruct (Qlt_le_dec 0 a) as [H | H]; [nra|].
  assert (a < 0) by (apply Qle_lteq in H; destruct H; [assumption | tauto]).
  nra.
Qed.

Lemma sum_squares_pos (x z : Q) : ~ (x == 0 /\ z == 0) -> 0 < x * x + z * z.
Proof.
  intros H. destruct (Qeq_dec x 0) as [Hx | Hx].
  - assert (Hz : ~ z == 0) by tauto.
    pose proof (square_pos z Hz). rewrite Hx. lra.
  - pose proof (square_pos x Hx).
    assert (0 <= z * z) by nra. lra.
Qed.

(** A positive factor times the square of the zoom grows with the zoom. *)
Lemma scaled_square_lt (c s1 s2 : Q) :
  0 < c -> 0 <= s1 -> s1 < s2 ->
  0 <= c * (s1 * s1) /\ c * (s1 * s1) < c * (s2 * s2).
Proof.
  intros Hc H1 H2.
  assert (0 <= s1 * s1) by nra.
  assert (s1 * s1 < s2 * s2) by nra.
  split; nra.
Qed.

Lemma distance_lt (p1 o1 p2 o2 : Point.t) :
  0 <= Spec.sqDistance p1 o1 ->
  Spec.sqDistance p1 o1 < Spec.sqDistance p2 o2 ->
  (Spec.distance p1 o1 < Spec.distance p2 o2)%R.
Proof.
  intros H0 Hlt. unfold Spec.distance. apply sqrt_lt_1_alt. split.
  - replace 0%R with (Q2R 0) by (unfold Q2R; cbn; Lra.lra).
    now apply Qle_Rle.
  - now apply Qlt_Rlt.
Qed.

(** C5, as stated, fails when the base scale is [0] (a canvas of zero
    width or height): every screen point is then the pan origin, whatever
    the zoom. *)
Lemma C5_zero_base_scale_counterexample :
  ~ (Spec.distance
       (deviceScreen (View.setScale 1 Scenario.view) 0 Scenario.R1)
       (View.pan Scenario.view)
     < Spec.distance
         (deviceScreen (View.setScale 2 Scenario.view) 0 Scenario.R1)
         (View.pan Scenario.view))%R.
Proof.
  unfold Spec.distance.
  assert (E : Q2R (Spec.sqDistance
                     (deviceScreen (View.setScale 1 Scenario.view) 0 Scenario.R1)
                     (View.pan Scenario.view))
              = Q2R (Spec.sqDistance
                       (deviceScreen (View.setScale 2 Scenario.view) 0 Scenario.R1)
                       (View.pan Scenario.view))).
  { apply Qeq_eqR. reflexivity. }
  rewrite E. apply Rlt_irrefl.
Qed.

(** C5 (amended): when the base scale and the global scale factor are not
    zero, the distance between the transformed point of a non-origin world
    position and the pan origin is strictly increasing in the zoom scale
    over the non-negative zoom scales (so over [[0.1, 10]]), in every
    quadrant, for devices and for wire endpoints. *)
Theorem C5_zoom_strictly_increases_distance :
  forall (st : View.t) (b : Q) (device : Device.t) (pos : Position.t)
         (s1 s2 : Q),
    ~ b == 0 ->
    ~ View.globalScaleFactor st == 0 ->
    0 <= s1 ->
    s1 < s2 ->
    (~ (Position.x (Device.position device) == 0
        /\ Position.z (Device.position device) == 0) ->
     (Spec.distance (deviceScreen (View.setScale s1 st) b device)
                    (View.pan st)
      < Spec.distance (deviceScreen (View.setScale s2 st) b device)
                      (View.pan st))%R)
    /\ (~ (Position.x pos == 0 /\ Position.z pos == 0) ->
        (Spec.distance (wireScreen (View.setScale s1 st) b pos)
                       (View.pan st)
         < Spec.distance (wireScreen (View.setScale s2 st) b pos)
                         (View.pan st))%R).
Proof.
  intros st b device pos s1 s2 Hb Hg H1 H2.
  assert (Hgb : ~ View.globalScaleFactor st * b == 0).
  { intros E. apply Qmult_integral in E. tauto. }
  split; intros Hpos.
  - pose proof (localScaleFactor_nonzero (Device.position device)) as Hf.
    assert (Hgbf : ~ View.globalScaleFactor st * b
                     * localScaleFactor (Device.position device) == 0).
    { intros E. apply Qmult_integral in E. tauto. }
    pose proof (sum_squares_pos _ _ Hpos) as Hxz.
    pose proof (square_pos _ Hgbf) as Hk.
    destruct (scaled_square_lt _ s1 s2 (Qmult_lt_0_compat _ _ Hxz Hk) H1 H2)
      as [Ha Hlt].
    apply distance_lt;
      change (View.pan st) with (View.pan (View.setScale s1 st)) at 1;
      rewrite deviceScreen_sqDistance;
      [| change (View.pan st) with (View.pan (View.setScale s2 st));
         rewrite deviceScreen_sqDistance ];
      cbn [View.globalScaleFactor View.scale View.setScale]; assumption.
  - pose proof (sum_squares_pos _ _ Hpos) as Hxz.
    pose proof (square_pos _ Hgb) as Hk.
    destruct (scaled_square_lt _ s1 s2 (Qmult_lt_0_compat _ _ Hxz Hk) H1 H2)
      as [Ha Hlt].
    apply distance_lt;
      change (View.pan st) with (View.pan (View.setScale s1 st)) at 1;
      rewrite wireScreen_sqDistance;
      [| change (View.pan st) with (View.pan (View.setScale s2 st));
         rewrite wireScreen_sqDistance ];
      cbn [View.globalScaleFactor View.scale View.setScale]; assumption.
Qed.

Lemma C5_zoom_strictly_increases_distance_witness :
  (Spec.distance
     (deviceScreen (View.setScale 1 Scenario.view) Scenario.baseScale
                   Scenario.R1)
     (View.pan Scenario.view)
   < Spec.distance
       (deviceScreen (View.setScale 2 Scenario.view) Scenario.baseScale
                     Scenario.R1)
       (View.pan Scenario.view))%R.
Proof.
  refine (proj1 (C5_zoom_strictly_increases_distance Scenario.view
                   Scenario.baseScale Scenario.R1 (Position.mk 1 0 0 None)
                   1 2 _ _ _ _) _).
  - vm_compute. discriminate.
  - vm_compute. discriminate.
  - vm_compute. discriminate.
  - reflexivity.
  - cbn. intros [H _]. revert H. vm_compute. discriminate.
Defined.

(** ** Node resolution *)

(** One device's contribution to the node map: its position under each of
    its node ids when it is a junction, nothing otherwise. *)
Lemma register_nodes_lookup (device : Device.t) (l : list string)
    (m : gmap string Position.t) (n : string) :
  foldl (fun nodePositions nodeId =>
           if isJunction device
           then <[nodeId := Device.position device]> nodePositions
           else nodePositions) m l !! n
  = if (isJunction device && includes l n)%bool
    then Some (Device.position device) else m !! n.
Proof.
  revert m. induction l as [|a l IH]; intros m; cbn [foldl].
  - unfold includes. cbn. now rewrite andb_false_r.
  - rewrite IH. destruct (isJunction device) eqn:EJ; cbn [andb]; [|reflexivity].
    unfold includes. cbn [existsb].
    destruct (existsb (String.eqb n) l) eqn:El.
    + now rewrite orb_true_r.
    + rewrite orb_false_r. destruct (String.eqb n a) eqn:Ea.
      * apply String.eqb_eq in Ea. subst a. apply lookup_insert_eq.
      * apply String.eqb_neq in Ea. apply lookup_insert_ne. congruence.
Qed.

(** An entry of the map built from [m] was in [m] or is the position of a
    junction that lists the key. *)
Lemma node_fold_sound (devices : list Device.t)
    (m : gmap string Position.t) (n : string) (p : Position.t) :
  foldl (fun nodePositions device =>
           foldl (fun nodePositions nodeId =>
                    if isJunction device
                    then <[nodeId := Device.position device]> nodePositions
                    else nodePositions)
                 nodePositions (Device.nodes device)) m devices !! n = Some p ->
  m !! n = Some p
  \/ exists j, j ∈ devices /\ isJunction j = true /\ n ∈ Device.nodes j
               /\ p = Device.position j.
Proof.
  revert m. induction devices as [|d devices IH]; intros m H; cbn [foldl] in H.
  - now left.
  - apply IH in H. destruct H as [H | (j & Hj & HJ & Hn & Hp)].
    + rewrite register_nodes_lookup in H.
      destruct (isJunction d) eqn:EJ; cbn [andb] in H; [|now left].
      destruct (includes (Device.nodes d) n) eqn:En; [|now left].
      right. exists d. repeat split.
      * apply list_elem_of_here.
      * exact EJ.
      * now apply includes_true.
      * congruence.
    + right. exists j. repeat split; try assumption.
      now apply list_elem_of_further.
Qed.

(** A key present in [m], or listed by a junction, is present in the map
    built from [m]. *)
Lemma node_fold_complete (devices : list Device.t)
    (m : gmap string Position.t) (n : string) :
  is_Some (m !! n) \/ Spec.junctionListed devices n ->
  is_Some (foldl (fun nodePositions device =>
                    foldl (fun nodePositions nodeId =>
                             if isJunction device
                             then <[nodeId := Device.position device]> nodePositions
                             else nodePositions)
                          nodePositions (Device.nodes device)) m devices !! n).
Proof.
  revert m. induction devices as [|d devices IH]; intros m H; cbn [foldl].
  - destruct H as [H | (j & Hj & _)]; [exact H|].
    now apply elem_of_nil in Hj.
  - apply IH. destruct H as [H | (j & Hj & HJ & Hn)].
    + left. rewrite register_nodes_lookup.
      destruct (isJunction d && includes (Device.nodes d) n)%bool;
        [eexists; reflexivity | exact H].
    + apply elem_of_cons in Hj. destruct Hj as [-> | Hj].
      * left. rewrite register_nodes_lookup, HJ.
        apply includes_true in Hn. rewrite Hn. eexists; reflexivity.
      * right. exists j. auto.
Qed.

Lemma calculateNodePositions_Some (devices : list Device.t) (n : string)
    (p : Position.t) :
  calculateNodePositions devices !! n = Some p ->
  exists j, j ∈ devices /\ isJunction j = true /\ n ∈ Device.nodes j
            /\ p = Device.position j.
Proof.
  unfold calculateNodePositions. intros H.
  apply node_fold_sound in H. destruct H as [H | H]; [|exact H].
  now rewrite lookup_empty in H.
Qed.

Lemma calculateNodePositions_is_Some (devices : list Device.t) (n : string) :
  Spec.junctionListed devices n ->
  is_Some (calculateNodePositions devices !! n).
Proof.
  intros H. unfold calculateNodePositions. apply node_fold_complete. now right.
Qed.

Lemma calculateNodePositions_None (devices : list Device.t) (n : string) :
  ~ Spec.junctionListed devices n ->
  calculateNodePositions devices !! n = None.
Proof.
  intros H. destruct (calculateNodePositions devices !! n) as [p|] eqn:E;
    [|reflexivity].
  exfalso. apply H. apply calculateNodePositions_Some in E.
  destruct E as (j & Hj & HJ & Hn & _). exists j. auto.
Qed.

(** [find] returns the first device that lists the node id. *)
Lemma findDevice_first (devices : list Device.t) (n : string) :
  Spec.listed devices n ->
  exists d, findDevice devices (Some n) = Some d
            /\ Spec.firstListing devices n d.
Proof.
  unfold findDevice, Spec.firstListing.
  induction devices as [|d0 devices IH]; intros (d & Hd & Hn).
  - now apply elem_of_nil in Hd.
  - cbn [List.find]. destruct (includes (Device.nodes d0) n) eqn:E.
    + exists d0. split; [reflexivity|]. exists [], devices.
      repeat split.
      * intros d' Hd'. now apply elem_of_nil in Hd'.
      * now apply includes_true.
    + apply elem_of_cons in Hd. destruct Hd as [-> | Hd].
      * apply includes_true in Hn. congruence.
      * destruct IH as (d1 & Hf & before & after & -> & Hb & Hn1).
        { exists d. auto. }
        exists d1. split; [exact Hf|].
        exists (d0 :: before), after. repeat split; try assumption.
        intros d' Hd'. apply elem_of_cons in Hd'. destruct Hd' as [-> | Hd'].
        -- now apply includes_false.
        -- now apply Hb.
Qed.

Lemma findDevice_none (devices : list Device.t) (n : string) :
  ~ Spec.listed devices n -> findDevice devices (Some n) = None.
Proof.
  intros H. unfold findDevice.
  destruct (List.find _ devices) as [d|] eqn:E; [|reflexivity].
  exfalso. apply H. apply find_some in E. destruct E as [Hin Hn].
  exists d. split; [now apply list_elem_of_In | now apply includes_true].
Qed.

(** The model's [toLowerCase] is lowercasing, character by character. *)
Lemma lowerAscii_spec (c d : ascii) :
  lowerAscii c = d <-> Spec.lowercasesTo c d.
Proof.
  unfold lowerAscii, Spec.lowercasesTo.
  pose proof (nat_ascii_bounded c) as Hc.
  destruct (Nat.leb_spec 65 (nat_of_ascii c)) as [E1 | E1];
    destruct (Nat.leb_spec (nat_of_ascii c) 90) as [E2 | E2]; cbn [andb].
  - split.
    + intros <-. left. split; [lia|].
      rewrite nat_ascii_embedding; lia.
    + intros [[_ H] | [H _]]; [|lia].
      rewrite H. apply ascii_nat_embedding.
  - split; [intros ->; right; split; [lia | reflexivity]|].
    intros [[H _] | [_ H]]; [lia | exact H].
  - split; [intros ->; right; split; [lia | reflexivity]|].
    intros [[H _] | [_ H]]; [lia | exact H].
  - split; [intros ->; right; split; [lia | reflexivity]|].
    intros [[H _] | [_ H]]; [lia | exact H].
Qed.

Lemma toLowerCase_spec (s t : string) :
  toLowerCase s = t <-> Spec.lowercasedIs s t.
Proof.
  revert t. induction s as [|c s IH]; intros [|d t]; cbn;
    try (split; [discriminate | tauto]); [tauto|].
  rewrite <- IH, <- lowerAscii_spec. split.
  - intros H. injection H. auto.
  - intros [-> ->]. reflexivity.
Qed.

(** [isJunction] decides that the type, lowercased, equals ["junction"]. *)
Lemma isJunction_spec (d : Device.t) :
  isJunction d = true <-> Spec.junctionType d.
Proof.
  unfold isJunction, Spec.junctionType.
  rewrite String.eqb_eq. apply toLowerCase_spec.
Qed.

Lemma junctionListed_spec (devices : list Device.t) (n : string) :
  Spec.junctionListed devices n <-> Spec.junctionLists devices n.
Proof.
  unfold Spec.junctionListed, Spec.junctionLists.
  split; intros (j & Hj & HJ & Hn); exists j;
    (split; [exact Hj|]); (split; [|exact Hn]); now apply isJunction_spec.
Qed.

(** The read of the node map is a position exactly for the keys that have
    an entry, the prototype slot included. *)
Lemma readNode_position (m : gmap string Position.t) (n : string)
    (p : Position.t) :
  readNode m n = NodeRead.position p <-> m !! n = Some p.
Proof.
  unfold readNode. destruct (m !! n) as [q|].
  - split; intros H; injection H; intros ->; reflexivity.
  - destruct (m !! "__proto__"%string ≫= _);
      [|destruct (includes objectPrototypeKeys n)];
      split; discriminate.
Qed.

Lemma positionField_other (p : Position.t) (n : string) :
  n ∉ Spec.positionKeys -> positionField p n = None.
Proof.
  intros H. unfold positionField.
  destruct (String.eqb n "x") eqn:E1;
    [apply String.eqb_eq in E1; subst; exfalso; apply H;
     unfold Spec.positionKeys; set_solver|].
  destruct (String.eqb n "y") eqn:E2;
    [apply String.eqb_eq in E2; subst; exfalso; apply H;
     unfold Spec.positionKeys; set_solver|].
  destruct (String.eqb n "z") eqn:E3;
    [apply String.eqb_eq in E3; subst; exfalso; apply H;
     unfold Spec.positionKeys; set_solver|].
  destruct (String.eqb n "scaleFactor") eqn:E4;
    [apply String.eqb_eq in E4; subst; exfalso; apply H;
     unfold Spec.positionKeys; set_solver|].
  reflexivity.
Qed.

(** For a plain key that no junction lists the read is [undefined]. *)
Lemma readNode_plain (devices : list Device.t) (n : string) :
  ~ Spec.junctionLists devices n ->
  Spec.plainKey devices n ->
  readNode (calculateNodePositions devices) n = NodeRead.undefined.
Proof.
  intros HJ [Hinh Hpos]. unfold readNode.
  rewrite calculateNodePositions_None
    by (intros H; apply HJ; now apply junctionListed_spec).
  apply includes_false in Hinh. rewrite Hinh.
  destruct (calculateNodePositions devices !! "__proto__"%string)
    as [proto|] eqn:E; cbn [mbind option_bind]; [|reflexivity].
  rewrite positionField_other; [reflexivity|].
  apply Hpos. apply junctionListed_spec.
  apply calculateNodePositions_Some in E.
  destruct E as (j & Hj & HJ' & Hn & _). exists j. auto.
Qed.

(** The value [drawWire] uses for a node id found on [d], the first
    device that lists it. *)
Lemma endpointPosition_resolves (devices : list Device.t) (n : string)
    (d : Device.t) :
  Spec.firstListing devices n d ->
  Spec.resolvesTo devices n
    (endpointPosition (calculateNodePositions devices) (Some n) d).
Proof.
  intros Hfirst. unfold endpointPosition, Spec.resolvesTo. split.
  - intros HJ. apply junctionListed_spec in HJ.
    apply calculateNodePositions_is_Some in HJ.
    destruct HJ as [p Hp].
    rewrite (proj2 (readNode_position _ _ _) Hp).
    apply calculateNodePositions_Some in Hp.
    destruct Hp as (j & Hj & HJ & Hn & ->).
    exists j. repeat split; try assumption. now apply isJunction_spec.
  - intros HJ _ Hplain. rewrite (readNode_plain _ _ HJ Hplain).
    exists d. split; [exact Hfirst | reflexivity].
Qed.

(** Both node ids listed: the wire has its two endpoint values. *)
Lemma wireEndpoints_resolved (wire : Wire.t) (devices : list Device.t)
    (n m : string) :
  Wire.nodes wire !! 0%nat = Some n ->
  Wire.nodes wire !! 1%nat = Some m ->
  Spec.listed devices n ->
  Spec.listed devices m ->
  exists startDevice endDevice,
    Spec.firstListing devices n startDevice
    /\ Spec.firstListing devices m endDevice
    /\ wireEndpoints wire devices (calculateNodePositions devices)
       = Some (endpointPosition (calculateNodePositions devices) (Some n)
                                startDevice,
               endpointPosition (calculateNodePositions devices) (Some m)
                                endDevice).
Proof.
  intros Hn Hm Ln Lm.
  destruct (findDevice_first _ _ Ln) as (sd & Hs & Fs).
  destruct (findDevice_first _ _ Lm) as (ed & He & Fe).
  exists sd, ed. repeat split; try assumption.
  unfold wireEndpoints. now rewrite Hn, Hm, Hs, He.
Qed.

Lemma wireEndpoints_dangling (wire : Wire.t) (devices : list Device.t)
    (nodePositions : gmap string Position.t) :
  Spec.dangling wire devices ->
  wireEndpoints wire devices nodePositions = None.
Proof.
  intros (n & [H | H] & Hn); unfold wireEndpoints; rewrite H.
  - now rewrite (findDevice_none _ _ Hn).
  - rewrite (findDevice_none _ _ Hn).
    now destruct (findDevice devices (Wire.nodes wire !! 0%nat)).
Qed.

(** A wire with fewer than two node ids is skipped as well. *)
Lemma wireEndpoints_short (wire : Wire.t) (devices : list Device.t)
    (nodePositions : gmap string Position.t) :
  (length (Wire.nodes wire) < 2)%nat ->
  wireEndpoints wire devices nodePositions = None.
Proof.
  intros H. unfold wireEndpoints.
  destruct (Wire.nodes wire) as [|a [|c l]]; cbn in *; try reflexivity.
  - now destruct (List.find _ devices).
  - lia.
Qed.

(** C6, at a node id that every object inherits a property for: R9 is the
    only device, it is no junction and lists ["constructor"]; the read
    [nodePositions["constructor"]] finds the inherited function, which is
    truthy, so both ends of W9 are that function and not the position of
    R9, and the wire is drawn with [NaN] coordinates. *)
Theorem C6_inherited_key_failing_input :
  Spec.listed Inherited.devices "constructor"
  /\ ~ Spec.junctionLists Inherited.devices "constructor"
  /\ Spec.firstListing Inherited.devices "constructor" Inherited.R9
  /\ readNode (calculateNodePositions Inherited.devices) "constructor"
     = NodeRead.inheritedMember "constructor"
  /\ wireEndpoints Inherited.W9 Inherited.devices
                   (calculateNodePositions Inherited.devices)
     = Some (Endpoint.noCoordinates, Endpoint.noCoordinates)
  /\ drawWire Scenario.view Inherited.W9 Inherited.devices
              (calculateNodePositions Inherited.devices) Scenario.baseScale
     = [ Ctx.beginPath; Ctx.moveToNaN; Ctx.lineToNaN;
         Ctx.strokeStyle "#0a84ff"; Ctx.lineWidth (2 * 1); Ctx.stroke ].
Proof.
  assert (Hl : Spec.listed Inherited.devices "constructor").
  { exists Inherited.R9. split; apply list_elem_of_here. }
  assert (HJ : ~ Spec.junctionLists Inherited.devices "constructor").
  { intros (j & Hj & HJ & _). apply isJunction_spec in HJ.
    apply list_elem_of_In in Hj. destruct Hj as [<- | []]. discriminate HJ. }
  assert (Hr : readNode (calculateNodePositions Inherited.devices)
                        "constructor"
               = NodeRead.inheritedMember "constructor").
  { unfold readNode.
    rewrite !calculateNodePositions_None; [reflexivity | |].
    - intros (j & Hj & HJ' & _). apply list_elem_of_In in Hj.
      destruct Hj as [<- | []]. discriminate HJ'.
    - intros H. apply HJ. now apply junctionListed_spec. }
  assert (He : wireEndpoints Inherited.W9 Inherited.devices
                 (calculateNodePositions Inherited.devices)
               = Some (Endpoint.noCoordinates, Endpoint.noCoordinates)).
  { unfold wireEndpoints.
    change (Wire.nodes Inherited.W9 !! 0%nat) with (Some "constructor"%string).
    change (Wire.nodes Inherited.W9 !! 1%nat) with (Some "constructor"%string).
    change (findDevice Inherited.devices (Some "constructor"%string))
      with (Some Inherited.R9).
    unfold endpointPosition. rewrite Hr. reflexivity. }
  split; [exact Hl|]. split; [exact HJ|].
  split.
  { exists [], []. repeat split.
    - intros d' Hd'. now apply elem_of_nil in Hd'.
    - apply list_elem_of_here. }
  split; [exact Hr|]. split; [exact He|].
  unfold drawWire. rewrite He. reflexivity.
Qed.

(** Once a junction lists ["__proto__"], its position is the prototype of
    the node map, and the map answers for the names of its coordinates: a
    device listing ["x"] is found, but the read of ["x"] is the number
    [1], truthy, and the end has no coordinates. *)
Lemma readNode_prototype_field :
  readNode
    (calculateNodePositions
       [Device.mk ["__proto__"]%string "J3" (Position.mk 1 0 2 None) 0
                  "junction"])
    "x"
  = NodeRead.number 1
  /\ endpointPosition
       (calculateNodePositions
          [Device.mk ["__proto__"]%string "J3" (Position.mk 1 0 2 None) 0
                     "junction"])
       (Some "x"%string)
       (Device.mk ["x"]%string "R3" (Position.mk 4 0 5 None) 0 "resistor")
     = Endpoint.noCoordinates.
Proof.
  assert (E1 : calculateNodePositions
                 [Device.mk ["__proto__"]%string "J3"
                            (Position.mk 1 0 2 None) 0 "junction"]
               !! "x"%string = None).
  { unfold calculateNodePositions. cbn [foldl].
    rewrite !register_nodes_lookup. reflexivity. }
  assert (E2 : calculateNodePositions
                 [Device.mk ["__proto__"]%string "J3"
                            (Position.mk 1 0 2 None) 0 "junction"]
               !! "__proto__"%string = Some (Position.mk 1 0 2 None)).
  { unfold calculateNodePositions. cbn [foldl].
    rewrite !register_nodes_lookup. reflexivity. }
  unfold endpointPosition, readNode. rewrite E1, E2. split; reflexivity.
Qed.

(** X24: for a wire whose two endpoint node ids are each listed by some
    device, both ends get a value; the value for an id [n] is the position
    of a junction that lists [n] whenever there is one, and otherwise,
    when [n] is a plain key, the position of the first device of the array
    that lists [n]. *)
Theorem X24_precedence_for_listed_ends :
  forall (devices : list Device.t) (wire : Wire.t) (n m : string),
    Wire.nodes wire !! 0%nat = Some n ->
    Wire.nodes wire !! 1%nat = Some m ->
    Spec.listed devices n ->
    Spec.listed devices m ->
    exists startPos endPos,
      wireEndpoints wire devices (calculateNodePositions devices)
      = Some (startPos, endPos)
      /\ Spec.resolvesTo devices n startPos
      /\ Spec.resolvesTo devices m endPos.
Proof.
  intros devices wire n m Hn Hm Ln Lm.
  destruct (wireEndpoints_resolved wire devices n m Hn Hm Ln Lm)
    as (sd & ed & Fs & Fe & E).
  eexists _, _. split; [exact E|].
  split; now apply endpointPosition_resolves.
Qed.

Lemma X24_precedence_for_listed_ends_witness :
  exists startPos endPos,
    wireEndpoints Scenario.W1 Scenario.devices
                  (calculateNodePositions Scenario.devices)
    = Some (startPos, endPos)
    /\ Spec.resolvesTo Scenario.devices "n1" startPos
    /\ Spec.resolvesTo Scenario.devices "n2" endPos.
Proof.
  apply (X24_precedence_for_listed_ends Scenario.devices Scenario.W1
           "n1" "n2").
  - reflexivity.
  - reflexivity.
  - exists Scenario.R1. split; [apply list_elem_of_here|].
    apply list_elem_of_here.
  - exists Scenario.R1. split; [apply list_elem_of_here|].
    apply list_elem_of_further, list_elem_of_here.
Defined.

(** C7: a wire with an endpoint node id that no device lists yields no
    call on the drawing context, whatever the node map and the base scale,
    and the frame is the one drawn without that wire. *)
Theorem C7_dangling_wire_skipped :
  forall (PI : Q) (measureText : Q -> string -> Q)
         (objectText : string -> string) (st : View.t)
         (wire : Wire.t) (devices : list Device.t)
         (nodePositions : gmap string Position.t) (b : Q)
         (canvas : option Canvas.t) (before after : list Wire.t),
    Spec.dangling wire devices ->
    drawWire st wire devices nodePositions b = []
    /\ draw PI measureText objectText st canvas
            (Some (CircuitData.mk devices (before ++ wire :: after)))
       = draw PI measureText objectText st canvas
              (Some (CircuitData.mk devices (before ++ after))).
Proof.
  intros PI measureText objectText st wire devices nodePositions b canvas before after H.
  assert (Hw : forall np b', drawWire st wire devices np b' = []).
  { intros np b'. unfold drawWire.
    now rewrite (wireEndpoints_dangling _ _ np H). }
  split; [apply Hw|].
  unfold draw. destruct canvas as [canvas|]; [|reflexivity].
  cbn [CircuitData.devices CircuitData.wires].
  rewrite !flat_map_app. cbn [flat_map]. rewrite Hw. reflexivity.
Qed.

Lemma C7_dangling_wire_skipped_witness :
  drawWire Scenario.view (Wire.mk ["n1"; "n9"]%string "W2") Scenario.devices
           (calculateNodePositions Scenario.devices) Scenario.baseScale
  = [].
Proof.
  refine (proj1 (C7_dangling_wire_skipped 3 (fun _ _ => 0) (fun name => name) Scenario.view
                   (Wire.mk ["n1"; "n9"]%string "W2") Scenario.devices
                   (calculateNodePositions Scenario.devices)
                   Scenario.baseScale None [] [] _)).
  exists "n9"%string. split; [right; reflexivity|].
  intros (d & Hd & Hn).
  apply includes_true in Hn.
  apply list_elem_of_In in Hd.
  destruct Hd as [<- | [<- | []]]; discriminate Hn.
Defined.

(** C9: in the example scenario the resolver maps ["n1"] to the position
    [{x: 1, z: 0}] and leaves ["n2"] unresolved; W1 is drawn from the
    start point [(900, 0)]; and its end position is the position of R1,
    the device found for ["n2"]. *)
Theorem C9_example_scenario :
  calculateNodePositions Scenario.devices !! "n1"%string
  = Some (Position.mk 1 0 0 None)
  /\ calculateNodePositions Scenario.devices !! "n2"%string = None
  /\ findDevice Scenario.devices (Some "n2"%string) = Some Scenario.R1
  /\ wireEndpoints Scenario.W1 Scenario.devices
                   (calculateNodePositions Scenario.devices)
     = Some (Endpoint.position (Device.position Scenario.J1),
             Endpoint.position (Device.position Scenario.R1))
  /\ Point.eq (wireScreen Scenario.view Scenario.baseScale
                          (Device.position Scenario.J1))
              (Point.mk 900 0)
  /\ exists sx sy ex ey,
       drawWire Scenario.view Scenario.W1 Scenario.devices
                (calculateNodePositions Scenario.devices) Scenario.baseScale
       = [ Ctx.beginPath; Ctx.moveTo sx sy; Ctx.lineTo ex ey;
           Ctx.strokeStyle "#0a84ff"; Ctx.lineWidth (2 * 1); Ctx.stroke ]
       /\ sx == 900 /\ sy == 0.
Proof.
  assert (E1 : calculateNodePositions Scenario.devices !! "n1"%string
               = Some (Position.mk 1 0 0 None)).
  { unfold calculateNodePositions, Scenario.devices. cbn [foldl].
    rewrite !register_nodes_lookup. reflexivity. }
  assert (E2 : calculateNodePositions Scenario.devices !! "n2"%string = None).
  { unfold calculateNodePositions, Scenario.devices. cbn [foldl].
    rewrite !register_nodes_lookup. reflexivity. }
  assert (E0 : calculateNodePositions Scenario.devices !! "__proto__"%string
               = None).
  { unfold calculateNodePositions, Scenario.devices. cbn [foldl].
    rewrite !register_nodes_lookup. reflexivity. }
  assert (E3 : wireEndpoints Scenario.W1 Scenario.devices
                 (calculateNodePositions Scenario.devices)
               = Some (Endpoint.position (Device.position Scenario.J1),
                       Endpoint.position (Device.position Scenario.R1))).
  { unfold wireEndpoints.
    change (Wire.nodes Scenario.W1 !! 0%nat) with (Some "n1"%string).
    change (Wire.nodes Scenario.W1 !! 1%nat) with (Some "n2"%string).
    change (findDevice Scenario.devices (Some "n1"%string))
      with (Some Scenario.R1).
    change (findDevice Scenario.devices (Some "n2"%string))
      with (Some Scenario.R1).
    unfold endpointPosition, readNode. rewrite E1, E2, E0. reflexivity. }
  split; [exact E1|]. split; [exact E2|]. split; [reflexivity|].
  split; [exact E3|].
  split; [split; reflexivity|].
  rewrite (drawWire_segment _ _ _ _ _ _ _ E3).
  eexists _, _, _, _. split; [reflexivity|]. split; reflexivity.
Qed.

(** ** The rest of the frame *)

(** One more turn of fuel changes nothing once the fuel covers the
    distance to the limit: the [for] loops of the checker pattern are
    modelled in full. *)
Lemma forRangeFrom_fuel (fuel : nat) (x limit step : Z) :
  (1 <= step)%Z ->
  (Z.to_nat (limit - x) <= fuel)%nat ->
  forRangeFrom (S fuel) x limit step = forRangeFrom fuel x limit step.
Proof.
  intros Hstep. revert x. induction fuel as [|fuel IH]; intros x Hfuel.
  - cbn. destruct (x <? limit)%Z eqn:E; [|reflexivity].
    apply Z.ltb_lt in E. lia.
  - change (forRangeFrom (S (S fuel)) x limit step)
      with (if (x <? limit)%Z
            then x :: forRangeFrom (S fuel) (x + step) limit step else []).
    change (forRangeFrom (S fuel) x limit step)
      with (if (x <? limit)%Z
            then x :: forRangeFrom fuel (x + step) limit step else []).
    destruct (x <? limit)%Z eqn:E; [|reflexivity].
    apply Z.ltb_lt in E. rewrite IH; [reflexivity | lia].
Qed.

Lemma forRange_fuel (limit step : Z) (extra : nat) :
  (1 <= step)%Z ->
  forRangeFrom (Z.to_nat limit + extra) 0 limit step = forRange limit step.
Proof.
  intros Hstep. unfold forRange. induction extra as [|extra IH].
  - now rewrite Nat.add_0_r.
  - rewrite Nat.add_succ_r, forRangeFrom_fuel; [exact IH | exact Hstep | lia].
Qed.

(** Without a canvas or without circuit data nothing is drawn. *)
Lemma draw_nothing (PI : Q) (measureText : Q -> string -> Q)
    (objectText : string -> string) (st : View.t) :
  (forall circuitData, draw PI measureText objectText st None circuitData = [])
  /\ (forall canvas, draw PI measureText objectText st canvas None = []).
Proof.
  split; [reflexivity|]. intros [canvas|]; reflexivity.
Qed.

(** A canvas of zero width has base scale [0]. *)
Lemma baseScaleOf_zero_width (height : Z) :
  (0 <= height)%Z -> baseScaleOf (Canvas.mk 0 height) == 0.
Proof.
  intros H. unfold baseScaleOf. cbn [Canvas.width Canvas.height].
  rewrite Q.min_l; [reflexivity|].
  unfold Qle, Qdiv, Qmult, Qinv, inject_Z. cbn. lia.
Qed.

(** The base scale of the example is that of a canvas of 1000 by 1000
    pixels. *)
Lemma baseScaleOf_scenario :
  baseScaleOf (Canvas.mk 1000 1000) == Scenario.baseScale.
Proof. reflexivity. Qed.

(** The slider's handler stores what it is given; the bounds are the
    slider's. *)
Lemma onValueChange_stores (value : Q) (st : View.t) :
  View.globalScaleFactor (onValueChange value st) = value.
Proof. reflexivity. Qed.

(** ** The example in double precision *)

(** [1 * 1000 * 0.9 * 1 + 0] is the double [900]: the rounding of [0.9]
    does not show in the start abscissa of W1. *)
Lemma binary64_screenStartX :
  SFeqb (Binary64.screenStartX (Binary64.ofZ 1) (Binary64.ofZ 1000)
                               Binary64.nine_tenths (Binary64.ofZ 1)
                               (Binary64.ofZ 0))
        (Binary64.ofZ 900)
  = true.
Proof. vm_compute. reflexivity. Qed.


(** * Further properties of the component *)

(** ** Dragging *)

(** While the button is down, moves keep the drag going and leave its
    anchor alone. *)
Lemma run_mouseMoves_dragging (positions : list (Q * Q)) (st : View.t) :
  View.isDragging st = true ->
  View.isDragging (run st (mouseMoves positions)) = true
  /\ View.dragStart (run st (mouseMoves positions)) = View.dragStart st
  /\ View.scale (run st (mouseMoves positions)) = View.scale st
  /\ View.rotation (run st (mouseMoves positions)) = View.rotation st
  /\ View.globalScaleFactor (run st (mouseMoves positions))
     = View.globalScaleFactor st.
Proof.
  revert st. induction positions as [|[mx my] positions IH]; intros st H.
  - cbn. auto.
  - cbn [mouseMoves map run foldl step fst snd].
    assert (E : handleMouseMove mx my st
                = View.setPan
                    (Point.mk (mx - Point.x (View.dragStart st))
                              (my - Point.y (View.dragStart st))) st).
    { unfold handleMouseMove. now rewrite H. }
    rewrite E.
    destruct (IH (View.setPan
                    (Point.mk (mx - Point.x (View.dragStart st))
                              (my - Point.y (View.dragStart st))) st) H)
      as (H1 & H2 & H3 & H4 & H5).
    unfold run, mouseMoves in *. rewrite H1, H2, H3, H4, H5. auto.
Qed.

(** X1: a whole drag (press at [(cx, cy)], any moves, a last move to
    [(mx, my)], release) leaves the pan at its old value plus the
    displacement of the pointer between the press and the last move,
    whatever the path in between; the drag is over afterwards and zoom,
    rotation and scale factor are untouched. *)
Theorem X1_drag_pans_by_displacement :
  forall (st : View.t) (cx cy mx my : Q) (path : list (Q * Q)),
    Point.eq
      (View.pan (run st (MouseDown cx cy :: mouseMoves path
                           ++ [MouseMove mx my; MouseUp])))
      (translate (View.pan st) (mx - cx) (my - cy))
    /\ View.isDragging (run st (MouseDown cx cy :: mouseMoves path
                                  ++ [MouseMove mx my; MouseUp]))
       = false
    /\ View.scale (run st (MouseDown cx cy :: mouseMoves path
                             ++ [MouseMove mx my; MouseUp]))
       = View.scale st
    /\ View.rotation (run st (MouseDown cx cy :: mouseMoves path
                                ++ [MouseMove mx my; MouseUp]))
       = View.rotation st
    /\ View.globalScaleFactor
         (run st (MouseDown cx cy :: mouseMoves path
                    ++ [MouseMove mx my; MouseUp]))
       = View.globalScaleFactor st.
Proof.
  intros st cx cy mx my path.
  unfold run. cbn [foldl step]. rewrite foldl_app. cbn [foldl step].
  destruct (run_mouseMoves_dragging path (handleMouseDown cx cy st) eq_refl)
    as (H1 & H2 & H3 & H4 & H5).
  unfold run in *.
  set (mid := foldl step (handleMouseDown cx cy st) (mouseMoves path)) in *.
  unfold handleMouseMove. rewrite H1.
  cbn [handleMouseUp View.pan View.setPan View.setIsDragging View.isDragging
       View.scale View.rotation View.globalScaleFactor].
  rewrite H2, H3, H4, H5.
  repeat split; try reflexivity;
    unfold translate; cbn [Point.x Point.y handleMouseDown View.dragStart
                           View.setDragStart View.setIsDragging View.pan];
    ring.
Qed.

(** X2: while no button is down, pointer moves change nothing at all; and
    after a release or a leave, whatever the state before it, the moves
    that follow change nothing, so the pan stays where the drag left it. *)
Theorem X2_moves_without_press_ignored :
  forall (st : View.t) (path : list (Q * Q)),
    (View.isDragging st = false -> run st (mouseMoves path) = st)
    /\ run (step st MouseUp) (mouseMoves path) = step st MouseUp
    /\ run (step st MouseLeave) (mouseMoves path) = step st MouseLeave
    /\ View.pan (run st (MouseUp :: mouseMoves path)) = View.pan st
    /\ View.pan (run st (MouseLeave :: mouseMoves path)) = View.pan st.
Proof.
  assert (H : forall path st, View.isDragging st = false ->
                              run st (mouseMoves path) = st).
  { induction path as [|[mx my] path IH]; intros st E; [reflexivity|].
    cbn [mouseMoves map run foldl step fst snd].
    unfold handleMouseMove. rewrite E. now apply IH. }
  intros st path. split; [now apply H|].
  assert (Hup : run (step st MouseUp) (mouseMoves path) = step st MouseUp)
    by (apply H; reflexivity).
  assert (Hleave : run (step st MouseLeave) (mouseMoves path)
                   = step st MouseLeave)
    by (apply H; reflexivity).
  split; [exact Hup|]. split; [exact Hleave|].
  split.
  - change (run st (MouseUp :: mouseMoves path))
      with (run (step st MouseUp) (mouseMoves path)).
    rewrite Hup. reflexivity.
  - change (run st (MouseLeave :: mouseMoves path))
      with (run (step st MouseLeave) (mouseMoves path)).
    rewrite Hleave. reflexivity.
Qed.

(** ** Pan, rotation and zoom as plane transformations *)

(** X3: pressing at [(cx, cy)] and moving to [(mx, my)] shifts the screen
    point of every device and of every wire endpoint by the pointer's
    displacement, in every rotation. *)
Theorem X3_drag_translates_screen_points :
  forall (st : View.t) (b : Q) (device : Device.t) (pos : Position.t)
         (cx cy mx my : Q),
    Point.eq
      (deviceScreen (run st [MouseDown cx cy; MouseMove mx my]) b device)
      (translate (deviceScreen st b device) (mx - cx) (my - cy))
    /\ Point.eq
         (wireScreen (run st [MouseDown cx cy; MouseMove mx my]) b pos)
         (translate (wireScreen st b pos) (mx - cx) (my - cy)).
Proof.
  intros st b device pos cx cy mx my.
  unfold run. cbn [foldl step]. unfold handleMouseMove, handleMouseDown.
  cbn [View.isDragging View.setDragStart View.setIsDragging].
  unfold deviceScreen, wireScreen, translate, Point.eq.
  cbn [View.rotation View.scale View.pan View.globalScaleFactor
       View.dragStart View.setPan View.setDragStart View.setIsDragging].
  destruct (View.rotation st =? 0)%Z; [cbn [Point.x Point.y]; split; split; ring|].
  destruct (View.rotation st =? 90)%Z; [cbn [Point.x Point.y]; split; split; ring|].
  destruct (View.rotation st =? 180)%Z; [cbn [Point.x Point.y]; split; split; ring|].
  destruct (View.rotation st =? 270)%Z; cbn [Point.x Point.y]; split; split; ring.
Qed.

(** X4: in a quadrant, the rotate button turns the screen point of every
    device and wire endpoint by a quarter turn about the pan origin: the
    offset [(u, v)] from the pan becomes [(-v, u)]. *)
Theorem X4_rotate_is_quarter_turn_about_pan :
  forall (st : View.t) (b : Q) (device : Device.t) (pos : Position.t),
    Spec.quadrant (View.rotation st) ->
    (Point.x (deviceScreen (handleRotate st) b device) - Point.x (View.pan st)
     == - (Point.y (deviceScreen st b device) - Point.y (View.pan st))
     /\ Point.y (deviceScreen (handleRotate st) b device) - Point.y (View.pan st)
        == Point.x (deviceScreen st b device) - Point.x (View.pan st))
    /\ (Point.x (wireScreen (handleRotate st) b pos) - Point.x (View.pan st)
        == - (Point.y (wireScreen st b pos) - Point.y (View.pan st))
        /\ Point.y (wireScreen (handleRotate st) b pos) - Point.y (View.pan st)
           == Point.x (wireScreen st b pos) - Point.x (View.pan st)).
Proof.
  intros st b device pos Hq.
  unfold deviceScreen, wireScreen, handleRotate.
  cbn [View.rotation View.scale View.pan View.globalScaleFactor
       View.setRotation].
  destruct Hq as [-> | [-> | [-> | ->]]];
    cbn [Z.eqb Pos.eqb Z.add Z.rem Z.quotrem Point.x Point.y];
    [ change (Z.rem (0 + 90) 360) with 90%Z
    | change (Z.rem (90 + 90) 360) with 180%Z
    | change (Z.rem (180 + 90) 360) with 270%Z
    | change (Z.rem (270 + 90) 360) with 0%Z ];
    cbn [Z.eqb Pos.eqb Point.x Point.y]; repeat split; ring.
Qed.

Lemma X4_rotate_is_quarter_turn_about_pan_witness :
  Point.x (deviceScreen (handleRotate Scenario.view) Scenario.baseScale
                        Scenario.R1)
  - Point.x (View.pan Scenario.view)
  == - (Point.y (deviceScreen Scenario.view Scenario.baseScale Scenario.R1)
        - Point.y (View.pan Scenario.view)).
Proof.
  refine (proj1 (proj1 (X4_rotate_is_quarter_turn_about_pan Scenario.view
                          Scenario.baseScale Scenario.R1
                          (Position.mk 1 0 0 None) _))).
  left. reflexivity.
Defined.

(** X5: from a quadrant, four clicks on the rotate button give back the
    very same state. *)
Theorem X5_four_rotations_restore_state :
  forall st : View.t,
    Spec.quadrant (View.rotation st) ->
    run st [ClickRotate; ClickRotate; ClickRotate; ClickRotate] = st.
Proof.
  intros [s p d ds cs r g] H. cbn in H.
  destruct H as [-> | [-> | [-> | ->]]]; reflexivity.
Qed.

Lemma X5_four_rotations_restore_state_witness :
  run (View.setRotation 90 Scenario.view)
      [ClickRotate; ClickRotate; ClickRotate; ClickRotate]
  = View.setRotation 90 Scenario.view.
Proof.
  apply (X5_four_rotations_restore_state (View.setRotation 90 Scenario.view)).
  right. left. reflexivity.
Defined.

(** ** Zoom *)

Lemma clamp_id (lo hi v : Q) :
  lo <= v -> v <= hi -> Qmax lo (Qmin hi v) == v.
Proof.
  intros H1 H2. rewrite (Q.min_r hi v H2). now apply Q.max_r.
Qed.

(** Only the wheel writes the zoom. *)
Lemma step_scale (st : View.t) (a : Action) :
  (forall deltaY, a <> Wheel deltaY) ->
  View.scale (step st a) = View.scale st.
Proof.
  destruct a; cbn; intros H; try reflexivity.
  - now destruct (H deltaY).
  - unfold handleMouseMove. now destruct (View.isDragging st).
Qed.

Lemma step_scale_range (st : View.t) (a : Action) :
  0.1 <= View.scale st <= 10 -> 0.1 <= View.scale (step st a) <= 10.
Proof.
  intros H. destruct a;
    try (rewrite step_scale; [exact H | discriminate]).
  cbn [step]. unfold handleWheel. cbn [View.scale View.setScale].
  apply clamp_bounds. discriminate.
Qed.

(** X6: the zoom starts at [1] and stays in [[0.1, 10]] through every
    sequence of actions; more generally the interval is kept from any state
    whose zoom is in it. *)
Theorem X6_zoom_stays_in_range :
  forall (actions : list Action),
    (forall initialScaleFactor : Q,
       0.1 <= View.scale (run (View.initial initialScaleFactor) actions) <= 10)
    /\ (forall st : View.t,
          0.1 <= View.scale st <= 10 ->
          0.1 <= View.scale (run st actions) <= 10).
Proof.
  intros actions.
  assert (H : forall st : View.t,
            0.1 <= View.scale st <= 10 ->
            0.1 <= View.scale (run st actions) <= 10).
  { induction actions as [|a actions IH]; intros st Hst; [exact Hst|].
    cbn [run foldl]. apply IH. now apply step_scale_range. }
  split; [|exact H].
  intros g. apply H. cbn. split; discriminate.
Qed.

(** X7: away from the upper bound a notch up followed by a notch down gives
    back the zoom, and away from the lower bound so does a notch down
    followed by a notch up. *)
Theorem X7_wheel_notches_cancel :
  forall (st : View.t) (up down : Q),
    up <= 0 ->
    0 < down ->
    (0.1 <= View.scale st -> View.scale st + 0.05 <= 10 ->
     View.scale (run st [Wheel up; Wheel down]) == View.scale st)
    /\ (0.1 <= View.scale st - 0.05 -> View.scale st <= 10 ->
        View.scale (run st [Wheel down; Wheel up]) == View.scale st).
Proof.
  intros st up down Hup Hdown.
  apply Qle_bool_iff in Hup. apply Qle_bool_false in Hdown.
  unfold run. cbn [foldl step]. unfold handleWheel.
  cbn [View.scale View.setScale]. rewrite Hup, Hdown.
  split; intros H1 H2.
  - assert (E : Qmax 0.1 (Qmin 10 (View.scale st + 1 * 0.05))
                == View.scale st + 0.05).
    { rewrite clamp_id; lra. }
    rewrite clamp_id; lra.
  - assert (E : Qmax 0.1 (Qmin 10 (View.scale st + -1 * 0.05))
                == View.scale st - 0.05).
    { rewrite clamp_id; lra. }
    rewrite clamp_id; lra.
Qed.

Lemma X7_wheel_notches_cancel_witness :
  View.scale (run (View.initial 8000) [Wheel (-120); Wheel 120])
  == View.scale (View.initial 8000).
Proof.
  refine (proj1 (X7_wheel_notches_cancel (View.initial 8000) (-120) 120 _ _)
            _ _).
  - vm_compute. discriminate.
  - reflexivity.
  - vm_compute. discriminate.
  - vm_compute. discriminate.
Defined.

(** X8: zooming multiplies the offset of every screen point from the pan
    origin: at zoom [c * s] the offset is [c] times the offset at zoom [s];
    and a factor on the zoom places every point where the same factor on
    the global scale factor does.  In every rotation, for devices and wire
    endpoints. *)
Theorem X8_zoom_scales_offsets :
  forall (st : View.t) (b c s : Q) (device : Device.t) (pos : Position.t),
    (Point.x (deviceScreen (View.setScale (c * s) st) b device)
       - Point.x (View.pan st)
     == c * (Point.x (deviceScreen (View.setScale s st) b device)
             - Point.x (View.pan st))
     /\ Point.y (deviceScreen (View.setScale (c * s) st) b device)
          - Point.y (View.pan st)
        == c * (Point.y (deviceScreen (View.setScale s st) b device)
                - Point.y (View.pan st)))
    /\ (Point.x (wireScreen (View.setScale (c * s) st) b pos)
          - Point.x (View.pan st)
        == c * (Point.x (wireScreen (View.setScale s st) b pos)
                - Point.x (View.pan st))
        /\ Point.y (wireScreen (View.setScale (c * s) st) b pos)
             - Point.y (View.pan st)
           == c * (Point.y (wireScreen (View.setScale s st) b pos)
                   - Point.y (View.pan st)))
    /\ Point.eq
         (deviceScreen (View.setScale (c * View.scale st) st) b device)
         (deviceScreen
            (View.setGlobalScaleFactor (c * View.globalScaleFactor st) st)
            b device)
    /\ Point.eq
         (wireScreen (View.setScale (c * View.scale st) st) b pos)
         (wireScreen
            (View.setGlobalScaleFactor (c * View.globalScaleFactor st) st)
            b pos).
Proof.
  intros st b c s device pos.
  unfold deviceScreen, wireScreen, Point.eq.
  cbn [View.rotation View.scale View.pan View.globalScaleFactor
       View.setScale View.setGlobalScaleFactor].
  destruct (View.rotation st =? 0)%Z;
    [cbn [Point.x Point.y]; repeat split; ring|].
  destruct (View.rotation st =? 90)%Z;
    [cbn [Point.x Point.y]; repeat split; ring|].
  destruct (View.rotation st =? 180)%Z;
    [cbn [Point.x Point.y]; repeat split; ring|].
  destruct (View.rotation st =? 270)%Z;
    cbn [Point.x Point.y]; repeat split; ring.
Qed.

(** X9: a device or a wire endpoint at the world origin is drawn at the pan
    origin, whatever the zoom, the rotation, the scale factors and the base
    scale. *)
Theorem X9_world_origin_at_pan :
  forall (st : View.t) (b : Q) (device : Device.t) (pos : Position.t),
    (Position.x (Device.position device) == 0 ->
     Position.z (Device.position device) == 0 ->
     Point.eq (deviceScreen st b device) (View.pan st))
    /\ (Position.x pos == 0 -> Position.z pos == 0 ->
        Point.eq (wireScreen st b pos) (View.pan st)).
Proof.
  intros st b device pos.
  unfold deviceScreen, wireScreen, Point.eq.
  split; intros Hx Hz; cbv zeta;
    (destruct (View.rotation st =? 0)%Z;
       [cbn [Point.x Point.y]; rewrite Hx, Hz; split; ring|]);
    (destruct (View.rotation st =? 90)%Z;
       [cbn [Point.x Point.y]; rewrite Hx, Hz; split; ring|]);
    (destruct (View.rotation st =? 180)%Z;
       [cbn [Point.x Point.y]; rewrite Hx, Hz; split; ring|]);
    (destruct (View.rotation st =? 270)%Z;
       cbn [Point.x Point.y]; rewrite Hx, Hz; split; ring).
Qed.

(** ** The node map *)

(** X10: reading the node map at a node id yields a position exactly when
    some junction (a device whose type, lowercased, equals ["junction"])
    lists that id, and the position read is then that of a junction that
    lists it; for every other id the read is no position. *)
Theorem X10_node_read_is_position_iff_junction_lists :
  forall (devices : list Device.t) (n : string),
    ((exists p, readNode (calculateNodePositions devices) n
                = NodeRead.position p)
     <-> Spec.junctionLists devices n)
    /\ (forall p,
          readNode (calculateNodePositions devices) n = NodeRead.position p ->
          exists j, j ∈ devices /\ Spec.junctionType j
                    /\ n ∈ Device.nodes j /\ p = Device.position j).
Proof.
  intros devices n.
  assert (H : forall p,
            readNode (calculateNodePositions devices) n = NodeRead.position p ->
            exists j, j ∈ devices /\ Spec.junctionType j
                      /\ n ∈ Device.nodes j /\ p = Device.position j).
  { intros p Hp. apply readNode_position in Hp.
    apply calculateNodePositions_Some in Hp.
    destruct Hp as (j & Hj & HJ & Hn & ->).
    exists j. repeat split; try assumption. now apply isJunction_spec. }
  split; [|exact H]. split.
  - intros [p Hp]. destruct (H p Hp) as (j & Hj & HJ & Hn & _).
    exists j. auto.
  - intros HJ. apply junctionListed_spec in HJ.
    apply calculateNodePositions_is_Some in HJ. destruct HJ as [p Hp].
    exists p. now apply readNode_position.
Qed.

(** Folding the devices into a map [m]: what the devices write wins, the
    rest of [m] stays. *)
Lemma node_fold_lookup (devices : list Device.t)
    (m : gmap string Position.t) (n : string) :
  foldl (fun nodePositions device =>
           foldl (fun nodePositions nodeId =>
                    if isJunction device
                    then <[nodeId := Device.position device]> nodePositions
                    else nodePositions)
                 nodePositions (Device.nodes device)) m devices !! n
  = match calculateNodePositions devices !! n with
    | Some p => Some p
    | None => m !! n
    end.
Proof.
  unfold calculateNodePositions. revert m.
  induction devices as [|d devices IH]; intros m; cbn [foldl].
  - now rewrite lookup_empty.
  - rewrite IH. rewrite (IH (foldl _ ∅ (Device.nodes d))).
    destruct (foldl _ ∅ devices !! n) as [p|]; [reflexivity|].
    rewrite !register_nodes_lookup.
    destruct (isJunction d && includes (Device.nodes d) n)%bool;
      [reflexivity | now rewrite lookup_empty].
Qed.

Lemma calculateNodePositions_app (first second : list Device.t) (n : string) :
  calculateNodePositions (first ++ second) !! n
  = match calculateNodePositions second !! n with
    | Some p => Some p
    | None => calculateNodePositions first !! n
    end.
Proof.
  unfold calculateNodePositions at 1. rewrite foldl_app.
  apply node_fold_lookup.
Qed.

(** X11: the node map of two device lists in a row is the map of the second
    list completed by the map of the first: a later junction overrides an
    earlier one on the node ids they share. *)
Theorem X11_later_devices_override :
  forall (first second : list Device.t) (n : string),
    calculateNodePositions (first ++ second) !! n
    = match calculateNodePositions second !! n with
      | Some p => Some p
      | None => calculateNodePositions first !! n
      end.
Proof.
  intros first second n. apply calculateNodePositions_app.
Qed.

(** X12: a node id listed by several junctions resolves to the position of
    the last of them in the device array. *)
Theorem X12_last_junction_wins :
  forall (before after : list Device.t) (j : Device.t) (n : string),
    isJunction j = true ->
    n ∈ Device.nodes j ->
    ~ Spec.junctionListed after n ->
    calculateNodePositions (before ++ j :: after) !! n
    = Some (Device.position j).
Proof.
  intros before after j n HJ Hn Hafter.
  rewrite calculateNodePositions_app.
  change (j :: after) with ([j] ++ after).
  rewrite calculateNodePositions_app.
  rewrite (calculateNodePositions_None after n Hafter).
  unfold calculateNodePositions. cbn [foldl].
  rewrite register_nodes_lookup, HJ.
  apply includes_true in Hn. now rewrite Hn.
Qed.

Lemma X12_last_junction_wins_witness :
  calculateNodePositions
    ([Device.mk ["n1"]%string "J0" (Position.mk 5 0 7 None) 0 "Junction"]
       ++ Scenario.J1 :: [Scenario.R1]) !! "n1"%string
  = Some (Device.position Scenario.J1).
Proof.
  apply X12_last_junction_wins.
  - reflexivity.
  - apply list_elem_of_here.
  - intros (d & Hd & HJ & _). apply list_elem_of_In in Hd.
    destruct Hd as [<- | []]. discriminate HJ.
Defined.

(** A device that is no junction leaves the map as it is. *)
Lemma register_nodes_not_junction (device : Device.t) (l : list string)
    (m : gmap string Position.t) :
  isJunction device = false ->
  foldl (fun nodePositions nodeId =>
           if isJunction device
           then <[nodeId := Device.position device]> nodePositions
           else nodePositions) m l = m.
Proof.
  intros H. rewrite H. induction l as [|a l IH]; [reflexivity | exact IH].
Qed.

(** X13: only junctions matter to the node map: the map of a device list is
    the map of its junctions alone. *)
Theorem X13_node_map_ignores_other_devices :
  forall devices : list Device.t,
    calculateNodePositions devices
    = calculateNodePositions (List.filter isJunction devices).
Proof.
  intros devices. unfold calculateNodePositions.
  generalize (∅ : gmap string Position.t).
  induction devices as [|d devices IH]; intros m; [reflexivity|].
  cbn [List.filter]. destruct (isJunction d) eqn:E; cbn [foldl].
  - apply IH.
  - rewrite (register_nodes_not_junction d _ m E). apply IH.
Qed.


(** ** Wires *)

(** X14: a wire end resolved to a device's position is drawn at the centre
    of that device's glyph when the device's local scale factor is [1]; and
    when the device is off the world origin and zoom, base scale and global
    scale factor are not zero, only then. *)
Theorem X14_wire_end_meets_glyph :
  forall (st : View.t) (b : Q) (device : Device.t),
    (localScaleFactor (Device.position device) == 1 ->
     Point.eq (wireScreen st b (Device.position device))
              (deviceScreen st b device))
    /\ (~ b == 0 -> ~ View.globalScaleFactor st == 0 ->
        ~ View.scale st == 0 ->
        ~ (Position.x (Device.position device) == 0
           /\ Position.z (Device.position device) == 0) ->
        Point.eq (wireScreen st b (Device.position device))
                 (deviceScreen st b device) ->
        localScaleFactor (Device.position device) == 1).
Proof.
  intros st b device.
  set (f := localScaleFactor (Device.position device)).
  set (x := Position.x (Device.position device)).
  set (z := Position.z (Device.position device)).
  set (g := View.globalScaleFactor st).
  set (s := View.scale st).
  split.
  - intros Hf. unfold wireScreen, deviceScreen, Point.eq.
    fold f x z g s. cbv zeta.
    destruct (View.rotation st =? 0)%Z;
      [cbn [Point.x Point.y]; rewrite Hf; split; ring|].
    destruct (View.rotation st =? 90)%Z;
      [cbn [Point.x Point.y]; rewrite Hf; split; ring|].
    destruct (View.rotation st =? 180)%Z;
      [cbn [Point.x Point.y]; rewrite Hf; split; ring|].
    destruct (View.rotation st =? 270)%Z;
      cbn [Point.x Point.y]; rewrite Hf; split; ring.
  - intros Hb Hg Hs Hxz Heq.
    assert (Hk : ~ g * b * s == 0).
    { intros E. apply Qmult_integral in E. destruct E as [E | E]; [|tauto].
      apply Qmult_integral in E. tauto. }
    assert (H : x * (g * b * s * (f - 1)) == 0
                /\ z * (g * b * s * (f - 1)) == 0).
    { revert Heq. unfold wireScreen, deviceScreen, Point.eq.
      fold f x z g s. cbv zeta.
      destruct (View.rotation st =? 0)%Z;
        [cbn [Point.x Point.y]; intros [H1 H2]; split; lra|].
      destruct (View.rotation st =? 90)%Z;
        [cbn [Point.x Point.y]; intros [H1 H2]; split; lra|].
      destruct (View.rotation st =? 180)%Z;
        [cbn [Point.x Point.y]; intros [H1 H2]; split; lra|].
      destruct (View.rotation st =? 270)%Z;
        cbn [Point.x Point.y]; intros [H1 H2]; split; lra. }
    destruct H as [H1 H2].
    apply Qmult_integral in H1. apply Qmult_integral in H2.
    assert (E : g * b * s * (f - 1) == 0) by tauto.
    apply Qmult_integral in E. destruct E as [E | E]; [tauto | lra].
Qed.

(** X15: a wire is symmetric in its two node ids: with the ids exchanged
    the same two positions come out, exchanged; the wire id plays no
    part. *)
Theorem X15_reversed_wire_swaps_endpoints :
  forall (devices : list Device.t) (nodePositions : gmap string Position.t)
         (n m wireId wireId' : string),
    wireEndpoints (Wire.mk [m; n] wireId') devices nodePositions
    = prod_swap <$> wireEndpoints (Wire.mk [n; m] wireId) devices nodePositions.
Proof.
  intros devices nodePositions n m wireId wireId'.
  unfold wireEndpoints. cbn [Wire.nodes lookup list_lookup].
  destruct (findDevice devices (Some n)), (findDevice devices (Some m));
    reflexivity.
Qed.

(** X16: a wire is drawn exactly when it has two node ids and each is
    listed by some device; it is then one path of six calls, and nothing
    otherwise. *)
Theorem X16_wire_drawn_iff_both_ends_listed :
  forall (st : View.t) (wire : Wire.t) (devices : list Device.t)
         (nodePositions : gmap string Position.t) (b : Q),
    (drawWire st wire devices nodePositions b <> []
     <-> exists n m,
           Wire.nodes wire !! 0%nat = Some n
           /\ Wire.nodes wire !! 1%nat = Some m
           /\ Spec.listed devices n /\ Spec.listed devices m)
    /\ (length (drawWire st wire devices nodePositions b) = 0%nat
        \/ length (drawWire st wire devices nodePositions b) = 6%nat).
Proof.
  intros st wire devices nodePositions b. split.
  - unfold drawWire, wireEndpoints. split.
    + intros H.
      destruct (Wire.nodes wire !! 0%nat) as [n|] eqn:En;
        [|now cbn in H].
      destruct (findDevice devices (Some n)) as [sd|] eqn:Es;
        [|now cbn in H].
      destruct (Wire.nodes wire !! 1%nat) as [m|] eqn:Em;
        [|now cbn in H].
      destruct (findDevice devices (Some m)) as [ed|] eqn:Ee;
        [|now cbn in H].
      exists n, m. repeat split; try reflexivity.
      * apply find_some in Es. destruct Es as [Hin Hn]. exists sd.
        split; [now apply list_elem_of_In | now apply includes_true].
      * apply find_some in Ee. destruct Ee as [Hin Hn]. exists ed.
        split; [now apply list_elem_of_In | now apply includes_true].
    + intros (n & m & En & Em & Ln & Lm).
      destruct (findDevice_first _ _ Ln) as (sd & Hs & _).
      destruct (findDevice_first _ _ Lm) as (ed & He & _).
      rewrite En, Em, Hs, He. discriminate.
  - unfold drawWire.
    destruct (wireEndpoints wire devices nodePositions) as [[sp ep]|];
      [right | left]; reflexivity.
Qed.

(** ** The frame *)

Lemma stackDepth_app (a c : list Ctx.op) (d : nat) :
  stackDepth (a ++ c) d
  = match stackDepth a d with
    | Some d' => stackDepth c d'
    | None => None
    end.
Proof.
  revert d. induction a as [|o a IH]; intros d; [reflexivity|].
  destruct o; cbn [app stackDepth]; try apply IH.
  destruct d; [reflexivity | apply IH].
Qed.

Lemma stackDepth_flat_map {A : Type} (f : A -> list Ctx.op) (l : list A) :
  (forall a d, stackDepth (f a) d = Some d) ->
  forall d, stackDepth (flat_map f l) d = Some d.
Proof.
  intros H. induction l as [|a l IH]; intros d; [reflexivity|].
  cbn [flat_map]. now rewrite stackDepth_app, H.
Qed.

Lemma stackDepth_drawDevice (PI : Q) (measureText : Q -> string -> Q)
    (objectText : string -> string)
    (st : View.t) (device : Device.t)
    (nodePositions : gmap string Position.t) (b : Q) (d : nat) :
  stackDepth (drawDevice PI measureText objectText st device nodePositions b) d = Some d.
Proof.
  unfold drawDevice.
  destruct (isJunction device),
    (readTable deviceColors (toLowerCase (Device.deviceType device)));
    reflexivity.
Qed.

Lemma stackDepth_drawWire (st : View.t) (wire : Wire.t)
    (devices : list Device.t) (nodePositions : gmap string Position.t)
    (b : Q) (d : nat) :
  stackDepth (drawWire st wire devices nodePositions b) d = Some d.
Proof.
  unfold drawWire.
  destruct (wireEndpoints wire devices nodePositions) as [[sp ep]|];
    [destruct sp, ep|]; reflexivity.
Qed.

(** X17: whatever is drawn, a frame leaves the context's state stack as it
    found it and never restores more than it has saved: every [save] of a
    device is closed by its [restore], wires and background use neither. *)
Theorem X17_frame_balances_save_restore :
  forall (PI : Q) (measureText : Q -> string -> Q)
         (objectText : string -> string) (st : View.t)
         (canvas : option Canvas.t) (circuitData : option CircuitData.t)
         (d : nat),
    stackDepth (draw PI measureText objectText st canvas circuitData) d = Some d.
Proof.
  intros PI measureText objectText st [canvas|] [circuitData|] d; try reflexivity.
  unfold draw. cbn [app stackDepth].
  rewrite stackDepth_app.
  assert (Hc : stackDepth (drawCheckerPattern canvas) d = Some d).
  { unfold drawCheckerPattern. apply stackDepth_flat_map. intros x d'.
    apply stackDepth_flat_map. reflexivity. }
  rewrite Hc, stackDepth_app.
  rewrite stackDepth_flat_map by (intros; apply stackDepth_drawWire).
  apply stackDepth_flat_map. intros; apply stackDepth_drawDevice.
Qed.

(** The values of the loop variable: from [x0], every [step], below
    [limit]. *)
Lemma forRangeFrom_In (fuel : nat) (x0 limit step x : Z) :
  (1 <= step)%Z ->
  (Z.to_nat (limit - x0) <= fuel)%nat ->
  In x (forRangeFrom fuel x0 limit step)
  <-> (x0 <= x < limit)%Z /\ (step | x - x0)%Z.
Proof.
  intros Hstep. revert x0. induction fuel as [|fuel IH]; intros x0 Hfuel.
  - cbn. split; [tauto | lia].
  - cbn [forRangeFrom]. destruct (x0 <? limit)%Z eqn:E.
    + apply Z.ltb_lt in E. cbn [In]. rewrite IH by lia. split.
      * intros [<- | [Hx [k Hk]]].
        -- split; [lia|]. exists 0%Z. lia.
        -- split; [lia|]. exists (k + 1)%Z. lia.
      * intros [Hx [k Hk]].
        destruct (Z.eq_dec k 0%Z) as [-> | Hk0]; [left; lia|].
        right. assert (1 <= k)%Z by nia.
        split; [nia|]. exists (k - 1)%Z. lia.
    + apply Z.ltb_ge in E. cbn [In]. split; [tauto | lia].
Qed.

Lemma forRange_In (limit step x : Z) :
  (1 <= step)%Z ->
  In x (forRange limit step) <-> (0 <= x < limit)%Z /\ (step | x)%Z.
Proof.
  intros Hstep. unfold forRange.
  rewrite forRangeFrom_In by lia.
  now replace (x - 0)%Z with x by lia.
Qed.

(** X18: the loop [for (x = 0; x < limit; x += step)] visits exactly the
    multiples of [step] from [0] up to, and not including, [limit]; none
    when [limit] is not positive. *)
Theorem X18_for_loop_visits_multiples :
  forall (limit step x : Z),
    (1 <= step)%Z ->
    In x (forRange limit step) <-> (0 <= x < limit)%Z /\ (step | x)%Z.
Proof.
  intros limit step x Hstep. now apply forRange_In.
Qed.

Lemma X18_for_loop_visits_multiples_witness :
  In 40%Z (forRange 45 20) <-> (0 <= 40 < 45)%Z /\ (20 | 40)%Z.
Proof.
  apply (X18_for_loop_visits_multiples 45 20 40). lia.
Defined.

Lemma flat_map_In_split {A B : Type} (f : A -> list B) (l : list A) (a : A) :
  In a l -> exists before after, flat_map f l = before ++ f a ++ after.
Proof.
  intros H. apply in_split in H. destruct H as (l1 & l2 & ->).
  exists (flat_map f l1), (flat_map f l2).
  now rewrite flat_map_app.
Qed.

Lemma even_tile (x y : Z) :
  (0 <= x)%Z -> (0 <= y)%Z -> (20 | x)%Z -> (20 | y)%Z ->
  (Z.rem ((x + y) / 20) 2 =? 0)%Z = Z.even (x / 20 + y / 20).
Proof.
  intros Hx Hy [i ->] [j ->].
  replace (i * 20 + j * 20)%Z with ((i + j) * 20)%Z by lia.
  rewrite !Z.div_mul by lia.
  rewrite Z.rem_mod_nonneg by lia.
  rewrite Zmod_even. now destruct (Z.even (i + j)).
Qed.

(** X19: the checker pattern covers the canvas: every pixel of the canvas
    lies in a 20 by 20 square that is filled, whose corner is on the grid
    of multiples of 20. *)
Theorem X19_checker_covers_canvas :
  forall (canvas : Canvas.t) (px py : Z),
    (0 <= px < Canvas.width canvas)%Z ->
    (0 <= py < Canvas.height canvas)%Z ->
    exists x y : Z,
      In (Ctx.fillRect (inject_Z x) (inject_Z y) 20 20)
         (drawCheckerPattern canvas)
      /\ (x <= px < x + 20)%Z /\ (y <= py < y + 20)%Z
      /\ (20 | x)%Z /\ (20 | y)%Z.
Proof.
  intros canvas px py Hx Hy.
  exists (20 * (px / 20))%Z, (20 * (py / 20))%Z.
  pose proof (Z.mul_div_le px 20 ltac:(lia)).
  pose proof (Z.mul_div_le py 20 ltac:(lia)).
  pose proof (Z.mod_pos_bound px 20 ltac:(lia)).
  pose proof (Z.mod_pos_bound py 20 ltac:(lia)).
  pose proof (Z.div_mod px 20 ltac:(lia)).
  pose proof (Z.div_mod py 20 ltac:(lia)).
  pose proof (Z.div_pos px 20 ltac:(lia) ltac:(lia)).
  pose proof (Z.div_pos py 20 ltac:(lia) ltac:(lia)).
  split; [|repeat split; try lia;
            [exists (px / 20)%Z | exists (py / 20)%Z]; lia].
  unfold drawCheckerPattern. apply in_flat_map.
  exists (20 * (px / 20))%Z. split.
  - apply forRange_In; [lia|]. split; [lia|]. exists (px / 20)%Z. lia.
  - apply in_flat_map. exists (20 * (py / 20))%Z. split.
    + apply forRange_In; [lia|]. split; [lia|]. exists (py / 20)%Z. lia.
    + right. left. reflexivity.
Qed.

Lemma X19_checker_covers_canvas_witness :
  exists x y : Z,
    In (Ctx.fillRect (inject_Z x) (inject_Z y) 20 20)
       (drawCheckerPattern (Canvas.mk 45 21))
    /\ (x <= 44 < x + 20)%Z /\ (y <= 20 < y + 20)%Z
    /\ (20 | x)%Z /\ (20 | y)%Z.
Proof.
  apply (X19_checker_covers_canvas (Canvas.mk 45 21) 44 20); cbn; lia.
Defined.

(** X20: each square of the grid is filled right after its colour is set,
    the lighter colour when the sum of its column and row numbers is even,
    the darker one when it is odd, so squares that share a side differ. *)
Theorem X20_checker_colours_alternate :
  forall (canvas : Canvas.t) (x y : Z),
    In x (forRange (Canvas.width canvas) 20) ->
    In y (forRange (Canvas.height canvas) 20) ->
    exists before after,
      drawCheckerPattern canvas
      = before
          ++ [ Ctx.fillStyle (if Z.even (x / 20 + y / 20)
                              then "#2c2c2e" else "#1c1c1e")%string;
               Ctx.fillRect (inject_Z x) (inject_Z y) 20 20 ]
          ++ after.
Proof.
  intros canvas x y Hx Hy. unfold drawCheckerPattern.
  destruct (flat_map_In_split
              (fun x =>
                 flat_map (fun y =>
                   [ Ctx.fillStyle
                       (if (Z.rem ((x + y) / 20) 2 =? 0)%Z
                        then "#2c2c2e"%string else "#1c1c1e"%string);
                     Ctx.fillRect (inject_Z x) (inject_Z y)
                                  (inject_Z 20) (inject_Z 20) ])
                   (forRange (Canvas.height canvas) 20))
              _ x Hx) as (b1 & a1 & E1).
  destruct (flat_map_In_split
              (fun y =>
                 [ Ctx.fillStyle
                     (if (Z.rem ((x + y) / 20) 2 =? 0)%Z
                      then "#2c2c2e"%string else "#1c1c1e"%string);
                   Ctx.fillRect (inject_Z x) (inject_Z y)
                                (inject_Z 20) (inject_Z 20) ])
              _ y Hy) as (b2 & a2 & E2).
  cbv zeta. rewrite E1, E2.
  apply forRange_In in Hx; [|lia]. apply forRange_In in Hy; [|lia].
  rewrite even_tile by tauto.
  exists (b1 ++ b2), (a2 ++ a1).
  rewrite <- !app_assoc. reflexivity.
Qed.

Lemma X20_checker_colours_alternate_witness :
  exists before after,
    drawCheckerPattern (Canvas.mk 45 21)
    = before
        ++ [ Ctx.fillStyle "#1c1c1e"; Ctx.fillRect 20 0 20 20 ]
        ++ after.
Proof.
  apply (X20_checker_colours_alternate (Canvas.mk 45 21) 20 0).
  - right. left. reflexivity.
  - left. reflexivity.
Defined.

(** X21: the base scale fits the nominal world extent into the canvas with
    the margin: at rotation [0] and for a zoom between [0] and [1], a wire
    endpoint whose scaled world coordinates are in [[0, 1000]] is drawn,
    from the pan origin, within nine tenths of the canvas width and of the
    canvas height. *)
Theorem X21_nominal_extent_fits_canvas :
  forall (st : View.t) (canvas : Canvas.t) (pos : Position.t),
    (0 <= Canvas.width canvas)%Z ->
    (0 <= Canvas.height canvas)%Z ->
    View.rotation st = 0%Z ->
    0 <= View.scale st <= 1 ->
    0 <= Position.x pos * View.globalScaleFactor st <= 1000 ->
    0 <= Position.z pos * View.globalScaleFactor st <= 1000 ->
    0 <= Point.x (wireScreen st (baseScaleOf canvas) pos)
         - Point.x (View.pan st)
      <= 0.9 * inject_Z (Canvas.width canvas)
    /\ 0 <= Point.y (wireScreen st (baseScaleOf canvas) pos)
            - Point.y (View.pan st)
         <= 0.9 * inject_Z (Canvas.height canvas).
Proof.
  intros st canvas pos Hw Hh Hr Hs Hx Hz.
  unfold wireScreen, baseScaleOf. rewrite Hr. cbn [Z.eqb Point.x Point.y].
  set (W := inject_Z (Canvas.width canvas)).
  set (H := inject_Z (Canvas.height canvas)).
  assert (HW : 0 <= W) by (unfold W, Qle; cbn; lia).
  assert (HH : 0 <= H) by (unfold H, Qle; cbn; lia).
  set (m := Qmin (W / 1000) (H / 1000)).
  assert (Hm1 : m <= W / 1000) by apply Q.le_min_l.
  assert (Hm2 : m <= H / 1000) by apply Q.le_min_r.
  assert (Hm0 : 0 <= m).
  { apply Q.min_glb; unfold Qdiv; apply Qmult_le_0_compat;
      try assumption; discriminate. }
  assert (EW : W / 1000 * 1000 == W) by field.
  assert (EH : H / 1000 * 1000 == H) by field.
  assert (HmW : 1000 * m <= W).
  { rewrite <- EW. apply (Qmult_le_r _ _ 1000) in Hm1; [lra | reflexivity]. }
  assert (HmH : 1000 * m <= H).
  { rewrite <- EH. apply (Qmult_le_r _ _ 1000) in Hm2; [lra | reflexivity]. }
  set (sx := Position.x pos * View.globalScaleFactor st) in *.
  set (sz := Position.z pos * View.globalScaleFactor st) in *.
  set (s := View.scale st) in *.
  assert (Hxm : 0 <= sx * m /\ sx * m <= 1000 * m) by (split; nra).
  assert (Hzm : 0 <= sz * m /\ sz * m <= 1000 * m) by (split; nra).
  assert (Hxs : 0 <= (sx * m) * s /\ (sx * m) * s <= sx * m)
    by (split; nra).
  assert (Hzs : 0 <= (sz * m) * s /\ (sz * m) * s <= sz * m)
    by (split; nra).
  repeat split; nra.
Qed.

Lemma X21_nominal_extent_fits_canvas_witness :
  0 <= Point.x (wireScreen (View.initial 1000)
                           (baseScaleOf (Canvas.mk 800 600))
                           (Position.mk 1 0 (1 # 2) None))
       - Point.x (View.pan (View.initial 1000))
    <= 0.9 * inject_Z 800.
Proof.
  refine (proj1 (X21_nominal_extent_fits_canvas (View.initial 1000)
                   (Canvas.mk 800 600) (Position.mk 1 0 (1 # 2) None)
                   _ _ _ _ _ _)).
  - cbn. lia.
  - cbn. lia.
  - reflexivity.
  - split; vm_compute; discriminate.
  - split; vm_compute; discriminate.
  - split; vm_compute; discriminate.
Defined.

(** ** Glyphs *)

(** X22: a junction, however its type is capitalised, is drawn as one
    circle of radius [20 * zoom / 4] at its screen point, in the junction
    colours, with no box and no label. *)
Theorem X22_junction_glyph_is_circle :
  forall (PI : Q) (measureText : Q -> string -> Q)
         (objectText : string -> string) (st : View.t)
         (device : Device.t) (nodePositions : gmap string Position.t)
         (b : Q),
    isJunction device = true ->
    drawDevice PI measureText objectText st device nodePositions b
    = [ Ctx.save;
        Ctx.translate (Point.x (deviceScreen st b device))
                      (Point.y (deviceScreen st b device));
        Ctx.rotate (Device.rotation device * PI / 180);
        Ctx.beginPath;
        Ctx.arc 0 0 (20 * View.scale st / 4) 0 (PI * 2);
        Ctx.fillStyle "#d1d1d6";
        Ctx.fill;
        Ctx.strokeStyle "#ffffff";
        Ctx.lineWidth (2 * View.scale st);
        Ctx.stroke;
        Ctx.restore ].
Proof.
  intros PI measureText objectText st device nodePositions b H.
  unfold drawDevice. rewrite H.
  unfold isJunction in H. apply String.eqb_eq in H. rewrite H.
  reflexivity.
Qed.

Lemma X22_junction_glyph_is_circle_witness :
  drawDevice 3 (fun _ _ => 0) (fun name => name) Scenario.view
             (Device.mk ["n1"]%string "J2" (Position.mk 1 0 0 None) 0
                        "JUNCTION")
             ∅ Scenario.baseScale
  = [ Ctx.save;
      Ctx.translate
        (Point.x (deviceScreen Scenario.view Scenario.baseScale
                    (Device.mk ["n1"]%string "J2" (Position.mk 1 0 0 None) 0
                               "JUNCTION")))
        (Point.y (deviceScreen Scenario.view Scenario.baseScale
                    (Device.mk ["n1"]%string "J2" (Position.mk 1 0 0 None) 0
                               "JUNCTION")));
      Ctx.rotate (0 * 3 / 180);
      Ctx.beginPath;
      Ctx.arc 0 0 (20 * 1 / 4) 0 (3 * 2);
      Ctx.fillStyle "#d1d1d6";
      Ctx.fill;
      Ctx.strokeStyle "#ffffff";
      Ctx.lineWidth (2 * 1);
      Ctx.stroke;
      Ctx.restore ].
Proof.
  apply (X22_junction_glyph_is_circle 3 (fun _ _ => 0) (fun name => name) Scenario.view
           (Device.mk ["n1"]%string "J2" (Position.mk 1 0 0 None) 0
                      "JUNCTION") ∅ Scenario.baseScale).
  reflexivity.
Defined.

Lemma ownProperty_missing {A : Type} (table : list (string * A))
    (key : string) :
  ~ In key (map fst table) -> ownProperty table key = None.
Proof.
  induction table as [|[k v] table IH]; intros H; [reflexivity|].
  cbn [ownProperty]. destruct (String.eqb k key) eqn:E.
  - apply String.eqb_eq in E. exfalso. apply H. left. exact E.
  - apply IH. intros Hin. apply H. right. exact Hin.
Qed.

Lemma includes_In (l : list string) (key : string) :
  includes l key = true <-> In key l.
Proof. rewrite includes_true. apply list_elem_of_In. Qed.

(** X23: a device whose lowercased type is none of the table's keys and no
    name inherited from [Object.prototype] is still drawn: its box is
    filled and stroked in the default colours and its label is the default
    glyph followed by the type as given. *)
Theorem X23_unknown_type_drawn_with_defaults :
  forall (PI : Q) (measureText : Q -> string -> Q)
         (objectText : string -> string) (st : View.t)
         (device : Device.t) (nodePositions : gmap string Position.t)
         (b : Q),
    ~ In (toLowerCase (Device.deviceType device)) (map fst deviceColors) ->
    ~ In (toLowerCase (Device.deviceType device)) objectPrototypeKeys ->
    (exists before after,
       drawDevice PI measureText objectText st device nodePositions b
       = before
           ++ [ Ctx.closePath;
                Ctx.fillStyle "#ffffff";
                Ctx.fill;
                Ctx.shadowColor "transparent";
                Ctx.strokeStyle "#d1d1d6";
                Ctx.lineWidth (3 * View.scale st);
                Ctx.stroke ]
           ++ after)
    /\ In (Ctx.fillText ("⚡" ++ " " ++ Device.deviceType device)%string 0 0)
          (drawDevice PI measureText objectText st device nodePositions b).
Proof.
  intros PI measureText objectText st device nodePositions b H Hinh.
  assert (HJ : isJunction device = false).
  { unfold isJunction. apply String.eqb_neq. intros E. apply H.
    rewrite E. cbn. tauto. }
  assert (Hi : includes objectPrototypeKeys
                        (toLowerCase (Device.deviceType device)) = false).
  { destruct (includes objectPrototypeKeys _) eqn:E; [|reflexivity].
    apply includes_In in E. contradiction. }
  unfold drawDevice, readTable. rewrite HJ. cbn [negb].
  rewrite (ownProperty_missing deviceColors _ H).
  assert (H' : ~ In (toLowerCase (Device.deviceType device))
                    (map fst componentEmojis)) by exact H.
  rewrite (ownProperty_missing componentEmojis _ H'), Hi.
  cbn [fst snd]. split.
  - eexists (_ :: _ :: _ :: _ :: _ :: _ :: _ :: _ :: _ :: _ :: _ :: _
               :: _ :: _ :: _ :: _ :: []), _.
    cbn [app]. reflexivity.
  - cbn [app In]. do 30 right. left. reflexivity.
Qed.

Lemma X23_unknown_type_drawn_with_defaults_witness :
  In (Ctx.fillText ("⚡" ++ " " ++ "Diode")%string 0 0)
     (drawDevice 3 (fun _ _ => 0) (fun name => name) Scenario.view
                 (Device.mk ["n1"]%string "D1" (Position.mk 1 0 0 None) 0
                            "Diode")
                 ∅ Scenario.baseScale).
Proof.
  refine (proj2 (X23_unknown_type_drawn_with_defaults 3 (fun _ _ => 0) (fun name => name)
                   Scenario.view
                   (Device.mk ["n1"]%string "D1" (Position.mk 1 0 0 None) 0
                              "Diode")
                   ∅ Scenario.baseScale _ _)).
  - cbn. intros [H | [H | [H | [H | [H | [H | [H | [H | []]]]]]]]];
      discriminate H.
  - cbn. intros H. repeat (destruct H as [H | H]; [discriminate H|]).
    exact H.
Defined.

(** X25: a device whose lowercased type is a name every object inherits
    (["constructor"], ["__proto__"]) gets no colours and no glyph of the
    tables: both tables answer with the inherited member, so the box is
    filled and stroked after [undefined] was assigned to the two styles,
    and the label starts with the text of that member. *)
Theorem X25_inherited_type_gets_no_colours :
  forall (PI : Q) (measureText : Q -> string -> Q)
         (objectText : string -> string) (st : View.t)
         (device : Device.t) (nodePositions : gmap string Position.t)
         (b : Q),
    In (toLowerCase (Device.deviceType device)) objectPrototypeKeys ->
    (exists before after,
       drawDevice PI measureText objectText st device nodePositions b
       = before
           ++ [ Ctx.closePath;
                Ctx.fillStyleUndefined;
                Ctx.fill;
                Ctx.shadowColor "transparent";
                Ctx.strokeStyleUndefined;
                Ctx.lineWidth (3 * View.scale st);
                Ctx.stroke ]
           ++ after)
    /\ In (Ctx.fillText
             (objectText (toLowerCase (Device.deviceType device))
              ++ " " ++ Device.deviceType device)%string 0 0)
          (drawDevice PI measureText objectText st device nodePositions b).
Proof.
  intros PI measureText objectText st device nodePositions b Hinh.
  assert (Hown : ~ In (toLowerCase (Device.deviceType device))
                      (map fst deviceColors)).
  { intros H. revert Hinh. cbn in H. cbn.
    repeat (destruct H as [H | H]; [rewrite <- H; intros Hinh;
      repeat (destruct Hinh as [Hinh | Hinh]; [discriminate Hinh|]);
      exact Hinh|]).
    destruct H. }
  assert (HJ : isJunction device = false).
  { unfold isJunction. apply String.eqb_neq. intros E. apply Hown.
    rewrite E. cbn. tauto. }
  assert (Hi : includes objectPrototypeKeys
                        (toLowerCase (Device.deviceType device)) = true)
    by now apply includes_In.
  unfold drawDevice, readTable. rewrite HJ. cbn [negb].
  rewrite (ownProperty_missing deviceColors _ Hown).
  assert (H' : ~ In (toLowerCase (Device.deviceType device))
                    (map fst componentEmojis)) by exact Hown.
  rewrite (ownProperty_missing componentEmojis _ H'), Hi.
  split.
  - eexists (_ :: _ :: _ :: _ :: _ :: _ :: _ :: _ :: _ :: _ :: _ :: _
               :: _ :: _ :: _ :: _ :: []), _.
    cbn [app]. reflexivity.
  - cbn [app In]. do 30 right. left. reflexivity.
Qed.

Lemma X25_inherited_type_gets_no_colours_witness :
  In (Ctx.fillText ("constructor" ++ " " ++ "Constructor")%string 0 0)
     (drawDevice 3 (fun _ _ => 0) (fun name => name) Scenario.view
                 (Device.mk ["n1"]%string "D2" (Position.mk 1 0 0 None) 0
                            "Constructor")
                 ∅ Scenario.baseScale).
Proof.
  refine (proj2 (X25_inherited_type_gets_no_colours 3 (fun _ _ => 0)
                   (fun name => name) Scenario.view
                   (Device.mk ["n1"]%string "D2" (Position.mk 1 0 0 None) 0
                              "Constructor")
                   ∅ Scenario.baseScale _)).
  cbn. left. reflexivity.
Defined.
